(** * styles_extraction/extract_pose.py: a shallow embedding

    The script discovers images, hands them to the reconstruction and
    alignment engines, exports the camera table and displays a few of the
    reciprocal matches between the first two views.  This file embeds the
    parts of the script that carry logic of their own:

    - [Numpy]: the array operations the script calls on its match arrays
      (integer and boolean indexing, [linspace], [round]);
    - [Discovery]: [get_image_list] over a model of [os.walk];
    - [PoseTable]: the construction of [poses_df];
    - [Matching]: the reciprocal matcher and the statements that consume
      its result;
    - [Viz]: the sampled indices, the sampled access and the side by side
      canvas ([pad], [concatenate]);
    - [Float64]: the sampler once more, on machine floats;
    - [Pipeline]: lines 88-113 with the matcher as a parameter;
    - [Plot]: the loop that draws the sampled matches over the canvas;
    - [Paths]: what [os.path.join] puts before a name, and trees with
      distinct names;
    - [Samples], [MoreSamples]: small inputs to run all of the above on.

    Floating point values are represented by the rationals they denote
    (every finite binary64 value is a rational).  [linspace] and the
    distances are therefore exact; see the remarks next to [linspace],
    and [Float64] for the comparison with binary64. *)

From Stdlib Require Import List ZArith QArith Qround Qabs Bool Arith Lia Lqa.
From Stdlib Require Import String Ascii.
From Stdlib Require DecimalString.
From Stdlib Require Import Floats Uint63.
Import ListNotations.
Local Open Scope list_scope.

Set Implicit Arguments.

(** ** Exceptions

    The script has no [try]: an exception raised by any statement ends the
    run.  Statements that can raise return [result]. *)

Inductive exn : Type :=
| IndexError
| ValueError.

Inductive result (A : Type) : Type :=
| Ok (a : A)
| Raise (e : exn).

Arguments Ok {A} a.
Arguments Raise {A} e.

Definition bind {A B : Type} (m : result A) (k : A -> result B) : result B :=
  match m with
  | Ok a => k a
  | Raise e => Raise e
  end.

Declare Scope result_scope.
Delimit Scope result_scope with result.
Notation "x <- m ;; k" := (bind m (fun x => k))
  (at level 61, m at next level, right associativity) : result_scope.
Open Scope result_scope.

Fixpoint mapM {A B : Type} (f : A -> result B) (l : list A) : result (list B) :=
  match l with
  | [] => Ok []
  | x :: t => y <- f x ;; ys <- mapM f t ;; Ok (y :: ys)
  end.

(** ** The numpy operations of the script *)

Module Numpy.

(** [a[i]] for an integer [i] along the first axis of an array of [n]
    rows: indices [-n .. n-1] are valid, negative ones count from the
    end, anything else raises [IndexError]. *)
Definition getitem {A : Type} (a : list A) (i : Z) : result A :=
  let n := Z.of_nat (List.length a) in
  let j := if (i <? 0)%Z then (i + n)%Z else i in
  if ((0 <=? j)%Z && (j <? n)%Z)%bool then
    match nth_error a (Z.to_nat j) with
    | Some x => Ok x
    | None => Raise IndexError
    end
  else Raise IndexError.

(** [a[idx]] for an integer array [idx]. *)
Definition take {A : Type} (a : list A) (idx : list Z) : result (list A) :=
  mapM (getitem a) idx.

(** The rows of [a] whose flag is set. *)
Fixpoint compress {A : Type} (a : list A) (mask : list bool) : list A :=
  match a, mask with
  | x :: a', m :: mask' => if m then x :: compress a' mask' else compress a' mask'
  | _, _ => []
  end.

(** [a[mask]] for a boolean array [mask]: a mask that has entries must
    have as many as [a] has rows, or the access raises [IndexError]; a
    mask without any entry is not checked against [a] and selects
    nothing. *)
Definition mask_select {A : Type} (a : list A) (mask : list bool)
  : result (list A) :=
  if ((List.length mask =? List.length a)%nat
      || (List.length mask =? 0)%nat)%bool
  then Ok (compress a mask)
  else Raise IndexError.

(** [mask.sum()]. *)
Definition count_true (mask : list bool) : Z :=
  Z.of_nat (List.length (filter (fun m => m) mask)).

(** [np.linspace(start, stop, num)] with the default [endpoint=True]:
    [step = (stop - start) / (num - 1)], the samples are
    [i * step + start] and, when [num > 1], the last one is overwritten
    with [stop].  With [num = 1] the only sample is [start].  (numpy
    computes a zero step and the single sample on branches of their own;
    in exact arithmetic they give the values of the formula below, where
    a division by zero is zero and multiplies the index [0].)

    The samples are exact rationals here.  In binary64 each sample
    carries a relative error of a few units in the last place, which
    changes the rounded index only when the exact sample sits (almost)
    on a half-integer.  An exact sample [i * (count - 1) / (num - 1)]
    is either a half-integer or at least [1 / (2 * (num - 1))] away from
    one, and for the script's [n_viz = 10] it is never one, since
    [2 * i * (count - 1)] is even and [9 * (2 * m + 1)] is odd. *)
Definition linspace (start stop : Q) (num : nat) : list Q :=
  match num with
  | O => []
  | S div =>
      let step := (stop - start) / inject_Z (Z.of_nat div) in
      map (fun i =>
             if ((0 <? div)%nat && (i =? div)%nat)%bool then stop
             else inject_Z (Z.of_nat i) * step + start)
          (seq 0 num)
  end.

(** [np.round] followed by [astype(int)]: the nearest integer, a tie
    going to the even neighbour. *)
Definition round_int (x : Q) : Z :=
  let u := Qfloor (x + (1 # 2)) in
  if (Qeq_bool (x + (1 # 2)) (inject_Z u) && Z.odd u)%bool
  then (u - 1)%Z else u.

End Numpy.

(** ** Image discovery (lines 12-18) *)

Module Discovery.

Local Open Scope string_scope.

(** [s.startswith(pre)] and [s.endswith(suf)] of Python's [str]. *)
Fixpoint is_prefix (pre s : string) : bool :=
  match pre, s with
  | EmptyString, _ => true
  | String a pre', String b s' => (Ascii.eqb a b && is_prefix pre' s')%bool
  | String _ _, EmptyString => false
  end.

Definition startswith (s pre : string) : bool := is_prefix pre s.

Definition endswith (s suf : string) : bool :=
  let n := String.length s in
  let m := String.length suf in
  ((m <=? n)%nat && String.eqb (substring (n - m) m s) suf)%bool.

(** [os.path.join(a, b)] of posixpath: an absolute [b] replaces [a], an
    empty [a] or one ending in a separator is extended without a new
    separator. *)
Definition join (a b : string) : string :=
  if startswith b "/" then b
  else if (String.eqb a "" || endswith a "/")%bool then a ++ b
  else a ++ "/" ++ b.

(** What [os.scandir] finds in a directory: the entries that are
    directories, each with its name, whether it is a symbolic link, and
    its own content; and the names of the other entries (regular files,
    symbolic links to files and so on). *)
#[local] Unset Elimination Schemes.
Inductive tree : Type :=
| Node (dirs : list (string * bool * tree)) (files : list string).
#[local] Set Elimination Schemes.

Definition dirnames (dirs : list (string * bool * tree)) : list string :=
  map (fun d => fst (fst d)) dirs.

(** [os.walk(top)] with its defaults ([topdown=True],
    [followlinks=False], errors ignored): the triple of [top] first, then
    the walk of every sub-directory that is not a symbolic link, in the
    order of [dirs].  A [top] that cannot be scanned yields nothing, like
    the walk of nothing at all; a tree describes what can be scanned. *)
Fixpoint walk (top : string) (t : tree)
  : list (string * list string * list string) :=
  match t with
  | Node dirs files =>
      (top, dirnames dirs, files)
        :: flat_map (fun d =>
                       match d with
                       | (name, islink, sub) =>
                           if islink : bool then [] else walk (join top name) sub
                       end) dirs
  end.

(** The two nested loops of [get_image_list], appending to [image_list]. *)
Definition get_image_list (path : string) (t : tree) : list string :=
  fold_left
    (fun image_list '(root, _, files) =>
       fold_left
         (fun image_list file =>
            if endswith file ".png"
            then (image_list ++ [join root file])%list
            else image_list)
         files image_list)
    (walk path t) [].

(** What one triple of the walk contributes to [image_list]. *)
Definition png_paths (triple : string * list string * list string)
  : list string :=
  match triple with
  | (root, _, files) =>
      map (join root) (filter (fun file => endswith file ".png") files)
  end.

(** What the loading stage hands on: the images of the paths it was
    given, at the requested size, or the diagnostic of a run without
    input images. *)
Inductive loading : Type :=
| Loaded (image_list : list string) (size : Z)
| DiscoveryError.

(** Modelled from the spec: [load_images] of [dust3r.utils.image], which
    line 37 calls with the discovered list, is not among the source
    files.  The error design of the pipeline has a run that found no
    input image fail fast with [DiscoveryError], an explicit diagnostic,
    rather than go on with an empty set; [get_image_list] raises nothing
    and the script has no check of its own between lines 34 and 37, so
    the failure is placed in the stage that receives the list.  What the
    stage does to each image is not modelled. *)
Definition load_images (image_list : list string) (size : Z) : loading :=
  match image_list with
  | [] => DiscoveryError
  | _ :: _ => Loaded image_list size
  end.

(** Lines 34-37: the discovered list is handed to [load_images] as it
    is. *)
Definition discover_and_load (images_path : string) (t : tree) : loading :=
  let image_list := get_image_list images_path t in
  load_images image_list 1920.

(** Where the files of a walked tree are: [file_at top t r f] when the
    entry [f] is a non-directory of the directory named [r] in the walk
    of [t] from [top], reached without crossing a symbolic link. *)
Inductive file_at : string -> tree -> string -> string -> Prop :=
| file_here top dirs files f :
    In f files -> file_at top (Node dirs files) top f
| file_below top dirs files name sub r f :
    In (name, false, sub) dirs ->
    file_at (join top name) sub r f ->
    file_at top (Node dirs files) r f.

(** Entry names as a file system has them: not empty, no separator. *)
Fixpoint has_sep (s : string) : bool :=
  match s with
  | EmptyString => false
  | String c s' => (Ascii.eqb c "/" || has_sep s')%bool
  end.

Definition name_ok (s : string) : bool :=
  (negb (String.eqb s "") && negb (has_sep s))%bool.

Fixpoint names_ok (t : tree) : bool :=
  match t with
  | Node dirs files =>
      (forallb name_ok files
       && forallb (fun d =>
                     match d with
                     | (name, _, sub) => (name_ok name && names_ok sub)%bool
                     end) dirs)%bool
  end.

End Discovery.

(** ** The camera table (lines 76-83) *)

Module PoseTable.

Local Open Scope string_scope.

(** [str(i)] for a non-negative [int]. *)
Definition str_of_nat (i : nat) : string :=
  DecimalString.NilEmpty.string_of_uint (Nat.to_uint i).

Section Frame.

(** The entries of [focals] and [poses] are tensors of the alignment
    engine; the table only stores and prints them. *)
Variables focal_t pose_t : Type.
Variable str_focal : focal_t -> string.
Variable str_pose : pose_t -> string.

Record PoseRecord : Type :=
  { img : string; focal : focal_t; pose : pose_t }.

Fixpoint rows (imgs : list string) (focals : list focal_t)
         (poses : list pose_t) : list PoseRecord :=
  match imgs, focals, poses with
  | i :: imgs', f :: focals', p :: poses' =>
      {| img := i; focal := f; pose := p |} :: rows imgs' focals' poses'
  | _, _, _ => []
  end.

(** [pd.DataFrame({"img": .., "focal": .., "pose": ..})]: the columns
    of a frame built from a dict must all have the same length, or
    the constructor raises [ValueError].  Only this check is modelled:
    what the constructor makes of the tensors [focals] and [poses]
    themselves when the lengths agree depends on the libraries, and no
    property below rests on the [Ok] branch. *)
Definition DataFrame (imgs : list string) (focals : list focal_t)
           (poses : list pose_t) : result (list PoseRecord) :=
  if ((List.length imgs =? List.length focals)%nat
      && (List.length focals =? List.length poses)%nat)%bool
  then Ok (rows imgs focals poses)
  else Raise ValueError.

(** [[f"img{i}" for i in range(2)]] *)
Definition img_labels : list string :=
  map (fun i => "img" ++ str_of_nat i) (seq 0 2).

Definition poses_df (focals : list focal_t) (poses : list pose_t)
  : result (list PoseRecord) :=
  DataFrame img_labels focals poses.

(** [poses_df.to_csv("poses.csv", index=False)]: the header and one
    line of fields per row of the frame, in the order of the frame. *)
Definition to_csv (df : list PoseRecord) : list (list string) :=
  ["img"; "focal"; "pose"]
    :: map (fun r => [img r; str_focal (focal r); str_pose (pose r)]) df.

Definition write_poses_csv (focals : list focal_t) (poses : list pose_t)
  : result (list (list string)) :=
  df <- poses_df focals poses ;;
  Ok (to_csv df).

End Frame.

End PoseTable.

(** ** Reciprocal matching (lines 85-100) *)

Module Matching.

Record point3 : Type := { px : Q; py : Q; pz : Q }.

(** The squared Euclidean distance: it orders pairs of points as the
    distance itself does. *)
Definition dist2 (p q : point3) : Q :=
  (px p - px q) * (px p - px q)
  + (py p - py q) * (py p - py q)
  + (pz p - pz q) * (pz p - pz q).

(** Modelled from the spec: the matcher [find_reciprocal_matches] of
    [dust3r.utils.geometry] is not among the source files; the definitions
    from here to [find_reciprocal_matches] follow the four steps of the
    matcher's algorithm.  The tie rule, which the algorithm leaves to the
    implementer, is the one it names: among equal entries the lowest index
    wins.  [argmin_from] scans for the index of the least entry. *)
Fixpoint argmin_from (best : nat) (dbest : Q) (i : nat) (ds : list Q) : nat :=
  match ds with
  | [] => best
  | d :: ds' =>
      if Qle_bool dbest d
      then argmin_from best dbest (S i) ds'
      else argmin_from i d (S i) ds'
  end.

Definition argmin (ds : list Q) : option nat :=
  match ds with
  | [] => None
  | d :: ds' => Some (argmin_from 0 d 1 ds')
  end.

(** [j] is the index [argmin] is meant to return: no entry is smaller
    and every entry before it is strictly larger. *)
Definition is_argmin (ds : list Q) (j : nat) : Prop :=
  exists dj,
    nth_error ds j = Some dj
    /\ (forall k dk, nth_error ds k = Some dk -> dj <= dk)
    /\ (forall k dk, (k < j)%nat -> nth_error ds k = Some dk -> dj < dk).

(** Modelled from the spec: the nearest point to [q] among [P] by
    Euclidean distance in 3D, by index ([find_reciprocal_matches] is not
    among the source files). *)
Definition nearest (P : list point3) (q : point3) : option nat :=
  argmin (map (dist2 q) P).

Definition option_nat_eqb (x y : option nat) : bool :=
  match x, y with
  | Some a, Some b => (a =? b)%nat
  | None, None => true
  | _, _ => false
  end.

Section Pair.

Variables A B : list point3.

(** Modelled from the spec: steps 1 and 2 of the missing matcher.  [nnB]
    sends an index of [A] to the index of its nearest point in [B], [nnA]
    an index of [B] to the index of its nearest point in [A]. *)
Definition nnB (a : nat) : option nat :=
  match nth_error A a with
  | Some p => nearest B p
  | None => None
  end.

Definition nnA (b : nat) : option nat :=
  match nth_error B b with
  | Some p => nearest A p
  | None => None
  end.

(** Modelled from the spec: step 3 of the missing matcher, [(a, b)] is
    accepted iff [nnB[a] = b] and [nnA[b] = a]. *)
Definition accept (a b : nat) : bool :=
  (option_nat_eqb (nnB a) (Some b) && option_nat_eqb (nnA b) (Some a))%bool.

(** Modelled from the spec: step 4 of the missing matcher, the accepted
    pairs in the enumeration order of [A]. *)
Definition accepted_pairs : list (nat * nat) :=
  flat_map (fun a => map (pair a) (filter (accept a) (seq 0 (List.length B))))
           (seq 0 (List.length A)).

(** Modelled from the spec: the second result of the missing matcher as
    line 100 uses it, the nearest neighbour in [A] of every point of [B]
    as an index array; a point with no neighbour at all ([A] is empty)
    gets the index one past the end. *)
Definition nn2_in_P1 : list nat :=
  map (fun b => match nnA b with
                | Some a => a
                | None => List.length A
                end) (seq 0 (List.length B)).

(** Modelled from the spec: the first result of the missing matcher as
    lines 99-100 use it, a flag per point of [B]: it belongs to an
    accepted pair, which can only be the pair with its nearest
    neighbour. *)
Definition reciprocal_in_P2 : list bool :=
  map (fun b => accept (nth b nn2_in_P1 0%nat) b) (seq 0 (List.length B)).

(** Modelled from the spec: [find_reciprocal_matches] of
    [dust3r.utils.geometry] is not among the source files.  The
    nearest-neighbour maps and the acceptance rule are those of the
    matcher's algorithm above, with the lowest index winning a tie; the
    three results have the shape the call site gives them: the flags of
    the second set, the nearest neighbours of the second set in the first
    one, and the number of accepted pairs. *)
Definition find_reciprocal_matches : list bool * list Z * Z :=
  (reciprocal_in_P2, map Z.of_nat nn2_in_P1,
   Numpy.count_true reciprocal_in_P2).

End Pair.

(** The pairs of indices the call site reads off the three results:
    [(nn2_in_P1[b], b)] for every flagged [b], in the order of the second
    set. *)
Definition index_pairs (r : list bool * list Z * Z) : list (Z * Z) :=
  match r with
  | (reciprocal_in_P2, nn2_in_P1, _) =>
      Numpy.compress
        (combine nn2_in_P1
                 (map Z.of_nat (seq 0 (List.length reciprocal_in_P2))))
        reciprocal_in_P2
  end.

(** [j] is the nearest point to [q] among [P]: no point is closer, and
    every point before it is strictly farther. *)
Definition is_nearest (P : list point3) (q : point3) (j : nat) : Prop :=
  exists pj,
    nth_error P j = Some pj
    /\ (forall k pk, nth_error P k = Some pk -> dist2 q pj <= dist2 q pk)
    /\ (forall k pk, (k < j)%nat -> nth_error P k = Some pk ->
                     dist2 q pj < dist2 q pk).

Section Pixels.

Variable pixel : Type.

(** One view as the alignment engine returns it, the grids flattened
    row by row: the pixel coordinates, the point map and the confidence
    mask.  [xy_grid] of [dust3r.utils.geometry] is not among the source
    files; the grid it returns for the view is taken as given. *)
Record view : Type :=
  { xy_grid : list pixel; pts3d : list point3; conf : list bool }.

(** Lines 95-100. *)
Definition matches (pts2d_0 pts2d_1 : list pixel) (P1 P2 : list point3)
  : result (list pixel * list pixel * Z) :=
  match find_reciprocal_matches P1 P2 with
  | (reciprocal_in_P2, nn2_in_P1, num_matches) =>
      matches_im1 <- Numpy.mask_select pts2d_1 reciprocal_in_P2 ;;
      nn_px <- Numpy.take pts2d_0 nn2_in_P1 ;;
      matches_im0 <- Numpy.mask_select nn_px reciprocal_in_P2 ;;
      Ok (matches_im0, matches_im1, num_matches)
  end.

End Pixels.

End Matching.

(** ** Sampling the matches to display and the canvas (lines 102-128) *)

Module Viz.

Definition n_viz : nat := 10.

(** [np.round(np.linspace(0, num_matches - 1, n_viz)).astype(int)] *)
Definition match_idx_to_viz (num_matches : Z) (n_viz : nat) : list Z :=
  map Numpy.round_int
      (Numpy.linspace 0 (inject_Z (num_matches - 1)) n_viz).

(** A sequence of indices that never steps down. *)
Definition nondecreasing (l : list Z) : Prop :=
  forall i j a b, (i <= j)%nat ->
    nth_error l i = Some a -> nth_error l j = Some b -> (a <= b)%Z.

(** An index that [a[i]] accepts without wrapping: [0 <= i < len(a)]. *)
Definition in_range (count : Z) (i : Z) : Prop := (0 <= i <= count - 1)%Z.

(** [matches_im0[match_idx_to_viz], matches_im1[match_idx_to_viz]] *)
Definition viz_matches {A : Type} (matches_im0 matches_im1 : list A)
           (idx : list Z) : result (list A * list A) :=
  v0 <- Numpy.take matches_im0 idx ;;
  v1 <- Numpy.take matches_im1 idx ;;
  Ok (v0, v1).

(** Lines 88-113 for the two views: mask the grids, match, sample. *)
Definition match_and_sample {pixel : Type} (v0 v1 : Matching.view pixel)
  : result (list pixel * list pixel) :=
  pts2d_0 <- Numpy.mask_select (Matching.xy_grid v0) (Matching.conf v0) ;;
  pts3d_0 <- Numpy.mask_select (Matching.pts3d v0) (Matching.conf v0) ;;
  pts2d_1 <- Numpy.mask_select (Matching.xy_grid v1) (Matching.conf v1) ;;
  pts3d_1 <- Numpy.mask_select (Matching.pts3d v1) (Matching.conf v1) ;;
  m <- Matching.matches pts2d_0 pts2d_1 pts3d_0 pts3d_1 ;;
  match m with
  | (matches_im0, matches_im1, num_matches) =>
      viz_matches matches_im0 matches_im1
                  (match_idx_to_viz num_matches n_viz)
  end.

Section Canvas.

(** A pixel is the vector of its channels; [zero] is the pixel that
    [constant_values=0] writes. *)
Variable px : Type.
Variable zero : px.

(** An image array of shape [(H, W, channels)]. *)
Record image : Type :=
  { height : nat; width : nat; data : list (list px) }.

Definition well_shaped (im : image) : Prop :=
  List.length (data im) = height im
  /\ Forall (fun row => List.length row = width im) (data im).

Definition pixel_at (im : image) (y x : nat) : option px :=
  match nth_error (data im) y with
  | Some row => nth_error row x
  | None => None
  end.

(** [np.pad(im, ((0, after), (0, 0), (0, 0)), "constant",
    constant_values=0)]: [after] rows of [zero] below the image.  Both
    calls pass [max(.., 0)], never a negative width. *)
Definition pad_bottom (im : image) (after : Z) : image :=
  {| height := height im + Z.to_nat after;
     width := width im;
     data := data im ++ repeat (repeat zero (width im)) (Z.to_nat after) |}.

Fixpoint zip_rows (a b : list (list px)) : list (list px) :=
  match a, b with
  | ra :: a', rb :: b' => (ra ++ rb) :: zip_rows a' b'
  | _, _ => []
  end.

(** [np.concatenate((a, b), axis=1)]: the other axes must agree. *)
Definition concatenate_axis1 (a b : image) : result image :=
  if (height a =? height b)%nat
  then Ok {| height := height a;
             width := width a + width b;
             data := zip_rows (data a) (data b) |}
  else Raise ValueError.

(** Lines 115-127: the two calls of [np.pad]. *)
Definition padded (img0 img1 : image) : image * image :=
  let H0 := Z.of_nat (height img0) in
  let H1 := Z.of_nat (height img1) in
  (pad_bottom img0 (Z.max (H1 - H0) 0),
   pad_bottom img1 (Z.max (H0 - H1) 0)).

(** [img = np.concatenate((img0, img1), axis=1)] *)
Definition canvas (img0 img1 : image) : result image :=
  concatenate_axis1 (fst (padded img0 img1)) (snd (padded img0 img1)).

End Canvas.

End Viz.

(** ** The sampler in binary64

    The same computation on the machine's floating point numbers, to
    compare with the exact one on given inputs. *)

Module Float64.

(** The float of an integer below [2^63] in magnitude. *)
Definition of_Z (z : Z) : float :=
  if (z <? 0)%Z
  then PrimFloat.opp (PrimFloat.of_uint63 (Uint63.of_Z (- z)))
  else PrimFloat.of_uint63 (Uint63.of_Z z).

Definition of_nat (n : nat) : float := of_Z (Z.of_nat n).

(** The rational a finite float denotes. *)
Definition to_Q (x : float) : Q :=
  match Prim2SF x with
  | S754_finite s m e =>
      let v := if s then Z.neg m else Z.pos m in
      if (0 <=? e)%Z then inject_Z (v * 2 ^ e)
      else Qmake v (Z.to_pos (2 ^ (- e)))
  | _ => 0
  end.

(** [np.linspace], branch by branch: the zero step, the single sample,
    the overwritten endpoint. *)
Definition linspace (start stop : float) (num : nat) : list float :=
  match num with
  | O => []
  | S div =>
      let delta := PrimFloat.sub stop start in
      let step := PrimFloat.div delta (of_nat div) in
      map (fun i =>
             if ((0 <? div)%nat && (i =? div)%nat)%bool then stop
             else
               let y :=
                 if (0 <? div)%nat then
                   if PrimFloat.eqb step (of_Z 0)
                   then PrimFloat.mul (PrimFloat.div (of_nat i) (of_nat div))
                                      delta
                   else PrimFloat.mul (of_nat i) step
                 else PrimFloat.mul (of_nat i) delta in
               PrimFloat.add y start)
          (seq 0 num)
  end.

Definition match_idx_to_viz (num_matches : Z) (n_viz : nat) : list Z :=
  map (fun y => Numpy.round_int (to_Q y))
      (linspace (of_Z 0) (of_Z (num_matches - 1)) n_viz).

(** The exact sampler and the binary64 one agree on [num_matches]. *)
Definition agrees (n_viz : nat) (num_matches : Z) : bool :=
  if list_eq_dec Z.eq_dec (match_idx_to_viz num_matches n_viz)
                 (Viz.match_idx_to_viz num_matches n_viz)
  then true else false.

End Float64.

(** ** Sample inputs *)

Module Samples.

Import Discovery Matching Viz.
Local Open Scope string_scope.

(** A small tree: three frames at the top, one in [run1], one behind the
    symbolic link [latest], and a directory whose name ends in [.png]. *)
Definition orbit : tree :=
  Node [ ("run1", false, Node [] ["0003.png"; "notes.txt"]);
         ("latest", true, Node [] ["0004.png"]);
         ("thumbs.png", false, Node [] ["README"]) ]
       ["0001.png"; "0002.PNG"; "0002.png"; ".png"].

Definition pt (x y z : Z) : point3 :=
  {| px := inject_Z x; py := inject_Z y; pz := inject_Z z |}.

(** Two points seen by the first view and three by the second: the first
    two of the second view sit next to the points of the first view,
    crosswise; the third is far from both. *)
Definition cloud0 : list point3 := [pt 0 0 0; pt 5 0 0].
Definition cloud1 : list point3 := [pt 5 0 1; pt 0 1 0; pt 9 9 9].

(** Views of two and three pixels, with every pixel trusted or none. *)
Definition seen0 : view (Z * Z) :=
  {| xy_grid := [(0, 0); (1, 0)]%Z; pts3d := cloud0; conf := [true; true] |}.
Definition seen1 : view (Z * Z) :=
  {| xy_grid := [(0, 0); (1, 0); (2, 0)]%Z; pts3d := cloud1;
     conf := [true; true; true] |}.
Definition blind0 : view (Z * Z) :=
  {| xy_grid := [(0, 0); (1, 0)]%Z; pts3d := cloud0; conf := [false; false] |}.
Definition blind1 : view (Z * Z) :=
  {| xy_grid := [(0, 0); (1, 0); (2, 0)]%Z; pts3d := cloud1;
     conf := [false; false; false] |}.

(** A one by two and a two by one image of one channel. *)
Definition wide : image Z :=
  {| height := 1; width := 2; data := [[1; 2]]%Z |}.
Definition tall : image Z :=
  {| height := 2; width := 1; data := [[3]; [4]]%Z |}.

End Samples.

(** ** The script around any matcher (lines 88-113)

    The statements of the script that consume the matcher's three
    results, with the matcher itself as a parameter: what they do does
    not depend on how the nearest neighbours were found. *)

Module Pipeline.

Import Matching.

(** An index that [a[i]] accepts for an array of [n] rows, wrapping
    included. *)
Definition valid_index (n : nat) (i : Z) : Prop :=
  (- Z.of_nat n <= i < Z.of_nat n)%Z.

(** A sequence of indices that steps up every time. *)
Definition increasing (l : list Z) : Prop :=
  forall i j a b, (i < j)%nat ->
    nth_error l i = Some a -> nth_error l j = Some b -> (a < b)%Z.

Section WithMatcher.

Variable pixel : Type.

(** [find_reciprocal_matches], whatever it computes. *)
Variable matcher : list point3 -> list point3 -> list bool * list Z * Z.

(** Lines 95-100. *)
Definition matches_with (pts2d_0 pts2d_1 : list pixel) (P1 P2 : list point3)
  : result (list pixel * list pixel * Z) :=
  match matcher P1 P2 with
  | (reciprocal_in_P2, nn2_in_P1, num_matches) =>
      matches_im1 <- Numpy.mask_select pts2d_1 reciprocal_in_P2 ;;
      nn_px <- Numpy.take pts2d_0 nn2_in_P1 ;;
      matches_im0 <- Numpy.mask_select nn_px reciprocal_in_P2 ;;
      Ok (matches_im0, matches_im1, num_matches)
  end.

(** Lines 88-113. *)
Definition match_and_sample_with (v0 v1 : view pixel)
  : result (list pixel * list pixel) :=
  pts2d_0 <- Numpy.mask_select (xy_grid v0) (conf v0) ;;
  pts3d_0 <- Numpy.mask_select (pts3d v0) (conf v0) ;;
  pts2d_1 <- Numpy.mask_select (xy_grid v1) (conf v1) ;;
  pts3d_1 <- Numpy.mask_select (pts3d v1) (conf v1) ;;
  m <- matches_with pts2d_0 pts2d_1 pts3d_0 pts3d_1 ;;
  match m with
  | (matches_im0, matches_im1, num_matches) =>
      Viz.viz_matches matches_im0 matches_im1
                      (Viz.match_idx_to_viz num_matches Viz.n_viz)
  end.

(** What the call site relies on for the two point sets at hand: a flag
    and a neighbour per point of the second set, every neighbour an index
    of the first set, and the count the number of flags. *)
Definition keeps_shape (P1 P2 : list point3) : Prop :=
  match matcher P1 P2 with
  | (reciprocal_in_P2, nn2_in_P1, num_matches) =>
      List.length reciprocal_in_P2 = List.length P2
      /\ List.length nn2_in_P1 = List.length P2
      /\ Forall (valid_index (List.length P1)) nn2_in_P1
      /\ num_matches = Numpy.count_true reciprocal_in_P2
  end.

(** The three grids of a view have one size. *)
Definition one_size (v : view pixel) : Prop :=
  List.length (conf v) = List.length (xy_grid v)
  /\ List.length (conf v) = List.length (pts3d v).

(** [x] is a pixel of the view that its confidence mask keeps. *)
Definition trusted (v : view pixel) (x : pixel) : Prop :=
  exists i, nth_error (xy_grid v) i = Some x
            /\ nth_error (conf v) i = Some true.

End WithMatcher.

End Pipeline.

(** ** Drawing the matches (lines 129-141) *)

Module Plot.

Import Viz.

(** One call of [pl.plot([x0, x1 + W0], [y0, y1], "-+",
    color=cmap(i / (n_viz - 1)), ..)]: the two abscissas, the two
    ordinates and the argument of the colour map. *)
Record segment : Type :=
  { xdata : Z * Z; ydata : Z * Z; color_at : Q }.

(** The loop [for i in range(n_viz)]; a pixel is the pair [(x, y)] that
    line 133 unpacks. *)
Definition plot_matches (W0 : Z)
           (viz_matches_im0 viz_matches_im1 : list (Z * Z))
  : result (list segment) :=
  mapM (fun i : nat =>
          p0 <- Numpy.getitem viz_matches_im0 (Z.of_nat i) ;;
          p1 <- Numpy.getitem viz_matches_im1 (Z.of_nat i) ;;
          match p0, p1 with
          | (x0, y0), (x1, y1) =>
              Ok {| xdata := (x0, (x1 + W0)%Z);
                    ydata := (y0, y1);
                    color_at := inject_Z (Z.of_nat i)
                                / inject_Z (Z.of_nat (n_viz - 1)) |}
          end)
       (seq 0 n_viz).

Section Show.

Variable px : Type.
Variable zero : px.

(** Lines 115-141: the canvas, then the lines over it. *)
Definition show_matches (img0 img1 : image px)
           (viz_matches_im0 viz_matches_im1 : list (Z * Z))
  : result (image px * list segment) :=
  img <- canvas zero img0 img1 ;;
  lines <- plot_matches (Z.of_nat (width img0))
                        viz_matches_im0 viz_matches_im1 ;;
  Ok (img, lines).

(** A pixel coordinate [(x, y)] inside an image. *)
Definition inside (im : image px) (p : Z * Z) : Prop :=
  (0 <= fst p < Z.of_nat (width im))%Z
  /\ (0 <= snd p < Z.of_nat (height im))%Z.

(** The pixel of an image at an integer coordinate. *)
Definition pixel_at_Z (im : image px) (x y : Z) : option px :=
  if ((0 <=? x)%Z && (0 <=? y)%Z)%bool
  then pixel_at im (Z.to_nat y) (Z.to_nat x)
  else None.

End Show.

End Plot.

(** ** Paths under a root *)

Module Paths.

Import Discovery.
Local Open Scope string_scope.

(** What [os.path.join(a, b)] puts before a relative [b]: [a] itself
    when it is empty or ends in a separator, [a] and a separator
    otherwise. *)
Definition slash (a : string) : string :=
  if (String.eqb a "" || endswith a "/")%bool then a else a ++ "/".

(** A tree as a file system holds it: in every directory the
    non-directory entries have different names, and so have the
    directories. *)
#[local] Unset Elimination Schemes.
Inductive tidy : tree -> Prop :=
| tidy_node dirs files :
    NoDup files -> NoDup (dirnames dirs) ->
    Forall (fun d => tidy (snd d)) dirs ->
    tidy (Node dirs files).
#[local] Set Elimination Schemes.

End Paths.

(** ** More sample inputs *)

Module MoreSamples.

Import Matching Viz.

(** A matcher that flags every point of the second set and pairs it with
    the first point of the first set. *)
Definition first_point_matcher (P1 P2 : list point3)
  : list bool * list Z * Z :=
  (map (fun _ => true) P2, map (fun _ => 0%Z) P2,
   Z.of_nat (List.length P2)).

(** A matcher that flags no point and reports no match. *)
Definition no_flag_matcher (P1 P2 : list point3) : list bool * list Z * Z :=
  (map (fun _ => false) P2, map (fun _ => 0%Z) P2, 0%Z).

(** Ten pixels of the one-row image [wide] and of the one-column part of
    [tall]. *)
Definition ten_left : list (Z * Z) := repeat (1, 0)%Z 10.
Definition ten_right : list (Z * Z) := repeat (0, 1)%Z 10.

End MoreSamples.

(** * Properties *)

(** ** Strings and paths *)

Section Strings.

Import Discovery.
Local Open Scope string_scope.

Lemma substring_whole (s : string) : substring 0 (String.length s) s = s.
Proof. induction s as [| c s IH]; simpl; [reflexivity | now rewrite IH]. Qed.

Lemma substring_after (a b : string) (m : nat) :
  substring (String.length a) m (a ++ b) = substring 0 m b.
Proof. induction a as [| c a IH]; simpl; [reflexivity | exact IH]. Qed.

Lemma substring_split (s : string) (k : nat) :
  (k <= String.length s)%nat ->
  s = substring 0 k s ++ substring k (String.length s - k) s.
Proof.
  revert k. induction s as [| c s IH]; intros k Hk; simpl in *.
  - destruct k; reflexivity.
  - destruct k as [| k]; simpl.
    + now rewrite substring_whole.
    + f_equal. apply IH. lia.
Qed.

Lemma length_app_string (a b : string) :
  String.length (a ++ b) = (String.length a + String.length b)%nat.
Proof. induction a as [| c a IH]; simpl; [reflexivity | now rewrite IH]. Qed.

(** [endswith] decides "ends with". *)
Lemma endswith_spec (s suf : string) :
  endswith s suf = true <-> exists stem, s = stem ++ suf.
Proof.
  unfold endswith. rewrite andb_true_iff, Nat.leb_le, String.eqb_eq. split.
  - intros [Hle Hsub].
    exists (substring 0 (String.length s - String.length suf) s).
    assert (E : (String.length s - String.length suf <= String.length s)%nat)
      by lia.
    apply substring_split in E.
    replace (String.length s - (String.length s - String.length suf))%nat
      with (String.length suf) in E by lia.
    now rewrite Hsub in E.
  - intros [stem ->]. rewrite length_app_string. split; [lia |].
    replace (String.length stem + String.length suf - String.length suf)%nat
      with (String.length stem) by lia.
    rewrite substring_after. apply substring_whole.
Qed.

Lemma is_prefix_app (a b : string) : is_prefix a (a ++ b) = true.
Proof.
  induction a as [| c a IH]; simpl; [reflexivity |].
  now rewrite Ascii.eqb_refl.
Qed.

Lemma is_prefix_refl (a : string) : is_prefix a a = true.
Proof.
  induction a as [| c a IH]; simpl; [reflexivity |].
  now rewrite Ascii.eqb_refl.
Qed.

Lemma is_prefix_trans (a b c : string) :
  is_prefix a b = true -> is_prefix b c = true -> is_prefix a c = true.
Proof.
  revert b c. induction a as [| x a IH]; intros b c Hab Hbc; [reflexivity |].
  destruct b as [| y b]; [discriminate |].
  destruct c as [| z c]; [discriminate |].
  simpl in *.
  apply andb_true_iff in Hab as [Exy Hab], Hbc as [Eyz Hbc].
  apply Ascii.eqb_eq in Exy, Eyz. subst. rewrite Ascii.eqb_refl. simpl.
  eapply IH; eassumption.
Qed.

(** Joining an entry name extends the path. *)
Lemma join_name (a n : string) :
  name_ok n = true ->
  join a n = a ++ n \/ join a n = a ++ "/" ++ n.
Proof.
  unfold name_ok, join, startswith. intro H.
  apply andb_true_iff in H as [Hne Hsep].
  destruct n as [| c n]; [discriminate |].
  simpl in Hsep. apply negb_true_iff, orb_false_iff in Hsep as [Hc _].
  cbn [is_prefix]. rewrite Ascii.eqb_sym, Hc. simpl.
  destruct (String.eqb a "" || endswith a "/")%bool; auto.
Qed.

Lemma join_prefix (a n : string) :
  name_ok n = true -> is_prefix a (join a n) = true.
Proof.
  intro H. destruct (@join_name a n H) as [-> | ->]; apply is_prefix_app.
Qed.

End Strings.

(** ** Image discovery *)

Section Walk.

Import Discovery.
Local Open Scope string_scope.

(** Induction over a tree whose sub-directories sit in a list. *)
Fixpoint tree_ind' (P : tree -> Prop)
         (step : forall dirs files,
             Forall (fun d => P (snd d)) dirs -> P (Node dirs files))
         (t : tree) : P t :=
  match t with
  | Node dirs files =>
      step dirs files
           ((fix all (l : list (string * bool * tree))
               : Forall (fun d => P (snd d)) l :=
               match l with
               | [] => Forall_nil _
               | d :: l' =>
                   Forall_cons d
                     (match d return P (snd d) with
                      | (_, sub) => tree_ind' P step sub
                      end) (all l')
               end) dirs)
  end.

Lemma inner_loop (root : string) (files acc : list string) :
  fold_left
    (fun image_list file =>
       if endswith file ".png"
       then (image_list ++ [join root file])%list
       else image_list)
    files acc
  = (acc ++ png_paths (root, @nil string, files))%list.
Proof.
  revert acc. induction files as [| f files IH]; intro acc; simpl.
  - now rewrite app_nil_r.
  - rewrite IH. unfold png_paths. simpl.
    destruct (endswith f ".png"); simpl; [| reflexivity].
    now rewrite <- app_assoc.
Qed.

Lemma outer_loop (triples : list (string * list string * list string))
      (acc : list string) :
  fold_left
    (fun image_list '(root, _, files) =>
       fold_left
         (fun image_list file =>
            if endswith file ".png"
            then (image_list ++ [join root file])%list
            else image_list)
         files image_list)
    triples acc
  = (acc ++ flat_map png_paths triples)%list.
Proof.
  revert acc. induction triples as [| [[root ds] files] triples IH];
    intro acc; simpl.
  - now rewrite app_nil_r.
  - rewrite inner_loop, IH. now rewrite <- app_assoc.
Qed.

(** The loops collect, triple by triple, the joined names that end in
    [.png]. *)
Lemma get_image_list_flat (path : string) (t : tree) :
  get_image_list path t = flat_map png_paths (walk path t).
Proof. unfold get_image_list. now rewrite outer_loop. Qed.

(** X3: the list comes in the order of the walk, directory by directory,
    and within a directory in the order of its entries. *)
Theorem get_image_list_in_walk_order (path : string) (t : tree) :
  get_image_list path t = flat_map png_paths (walk path t)
  /\ forall files,
      get_image_list path (Node [] files)
      = map (join path) (filter (fun file => endswith file ".png") files).
Proof.
  split; [apply get_image_list_flat |].
  intro files. rewrite get_image_list_flat. simpl. apply app_nil_r.
Qed.

Lemma walk_file_at (t : tree) :
  forall top r ds fs f,
    In (r, ds, fs) (walk top t) -> In f fs -> file_at top t r f.
Proof.
  induction t as [dirs files IH] using tree_ind'.
  intros top r ds fs f Hin Hf. simpl in Hin. destruct Hin as [E | Hin].
  - injection E as <- _ <-. now apply file_here.
  - apply in_flat_map in Hin as ([[name islink] sub] & Hd & Hin).
    destruct islink; [contradiction |].
    rewrite Forall_forall in IH.
    eapply file_below; [exact Hd |].
    eapply (IH _ Hd); eassumption.
Qed.

Lemma file_at_walk (top : string) (t : tree) (r f : string) :
  file_at top t r f ->
  exists ds fs, In (r, ds, fs) (walk top t) /\ In f fs.
Proof.
  induction 1 as [top dirs files f Hf
                 | top dirs files name sub r f Hd _ (ds & fs & Hin & Hf)].
  - exists (dirnames dirs), files. split; [now left | exact Hf].
  - exists ds, fs. split; [| exact Hf].
    simpl. right. apply in_flat_map.
    exists (name, false, sub). split; [exact Hd | exact Hin].
Qed.

Lemma in_get_image_list (path : string) (t : tree) (p : string) :
  In p (get_image_list path t) <->
  exists r f, file_at path t r f /\ endswith f ".png" = true /\ p = join r f.
Proof.
  rewrite get_image_list_flat, in_flat_map. split.
  - intros ([[r ds] fs] & Hin & Hp). unfold png_paths in Hp.
    apply in_map_iff in Hp as (f & <- & Hf).
    apply filter_In in Hf as [Hf Hpng].
    exists r, f. split; [| split; [exact Hpng | reflexivity]].
    eapply walk_file_at; eassumption.
  - intros (r & f & Hat & Hpng & ->).
    apply file_at_walk in Hat as (ds & fs & Hin & Hf).
    exists (r, ds, fs). split; [exact Hin |].
    unfold png_paths. apply in_map, filter_In. split; assumption.
Qed.

Lemma names_ok_sub (dirs : list (string * bool * tree)) (files : list string)
      (name : string) (islink : bool) (sub : tree) :
  names_ok (Node dirs files) = true -> In (name, islink, sub) dirs ->
  name_ok name = true /\ names_ok sub = true.
Proof.
  simpl. intros H Hd. apply andb_true_iff in H as [_ H].
  rewrite forallb_forall in H. specialize (H _ Hd). simpl in H.
  now apply andb_true_iff in H.
Qed.

Lemma file_at_under (top : string) (t : tree) (r f : string) :
  file_at top t r f -> names_ok t = true ->
  is_prefix top r = true /\ name_ok f = true.
Proof.
  induction 1 as [top dirs files f Hf
                 | top dirs files name sub r f Hd _ IH]; intro Hok.
  - split.
    + apply is_prefix_refl.
    + simpl in Hok. apply andb_true_iff in Hok as [Hok _].
      rewrite forallb_forall in Hok. now apply Hok.
  - destruct (@names_ok_sub _ _ _ _ _ Hok Hd) as [Hname Hsub].
    destruct (IH Hsub) as [Hpre Hf]. split; [| exact Hf].
    eapply is_prefix_trans; [| exact Hpre]. now apply join_prefix.
Qed.

End Walk.

Section DiscoveryClaims.

Import Discovery.
Local Open Scope string_scope.

Example get_image_list_orbit :
  get_image_list "videos/orbit" Samples.orbit
  = [ "videos/orbit/0001.png"; "videos/orbit/0002.png"; "videos/orbit/.png";
      "videos/orbit/run1/0003.png" ].
Proof. vm_compute. reflexivity. Qed.

(** C8: the list holds exactly the joined paths of the entries that the
    recursive walk lists as non-directories and whose name ends in [.png];
    with entry names as a file system has them, each path extends the
    given root. *)
Theorem get_image_list_exact (path : string) (t : tree) (p : string) :
  (In p (get_image_list path t) <->
   exists r f stem,
     file_at path t r f /\ f = stem ++ ".png" /\ p = join r f)
  /\ (names_ok t = true ->
      In p (get_image_list path t) -> is_prefix path p = true).
Proof.
  split.
  - rewrite in_get_image_list. split.
    + intros (r & f & Hat & Hpng & ->).
      apply endswith_spec in Hpng as [stem ->]. eauto 6.
    + intros (r & f & stem & Hat & -> & ->).
      exists r, (stem ++ ".png"). split; [exact Hat | split; [| reflexivity]].
      apply endswith_spec. eauto.
  - intros Hok Hin. apply in_get_image_list in Hin as (r & f & Hat & _ & ->).
    destruct (file_at_under Hat Hok) as [Hpre Hf].
    eapply is_prefix_trans; [exact Hpre |]. now apply join_prefix.
Qed.

(** The list is empty exactly when the walk meets no name ending in
    [.png]. *)
Lemma get_image_list_nil_iff (path : string) (t : tree) :
  get_image_list path t = [] <->
  forall r f, file_at path t r f -> endswith f ".png" = false.
Proof.
  split.
  - intros Hnil r f Hat. destruct (endswith f ".png") eqn:E; [| reflexivity].
    assert (Hin : In (join r f) (get_image_list path t))
      by (apply in_get_image_list; eauto).
    rewrite Hnil in Hin. contradiction.
  - intro Hno. destruct (get_image_list path t) as [| p l] eqn:E;
      [reflexivity |].
    assert (Hin : In p (get_image_list path t)) by (rewrite E; now left).
    apply in_get_image_list in Hin as (r & f & Hat & Hpng & _).
    rewrite (Hno _ _ Hat) in Hpng. discriminate.
Qed.

Example discover_and_load_without_images :
  discover_and_load "videos/orbit"
                    (Node [("old", false, Node [] ["0001.jpg"])] ["notes.txt"])
  = DiscoveryError.
Proof. reflexivity. Qed.

Example discover_and_load_orbit :
  discover_and_load "videos/orbit" Samples.orbit
  = Loaded [ "videos/orbit/0001.png"; "videos/orbit/0002.png";
             "videos/orbit/.png"; "videos/orbit/run1/0003.png" ] 1920.
Proof. vm_compute. reflexivity. Qed.

(** C7: the run ends in [DiscoveryError] exactly when the walk of the
    given directory meets no name ending in [.png]; the loading stage
    never goes on with an empty set, and when it goes on it does so with
    the discovered list as it is. *)
Theorem no_images_fails_fast (path : string) (t : tree) :
  (discover_and_load path t = DiscoveryError <->
   forall r f, file_at path t r f -> endswith f ".png" = false)
  /\ (forall image_list size,
         discover_and_load path t = Loaded image_list size ->
         image_list = get_image_list path t
         /\ image_list <> []
         /\ exists r f, file_at path t r f /\ endswith f ".png" = true).
Proof.
  unfold discover_and_load. split.
  - rewrite <- get_image_list_nil_iff.
    destruct (get_image_list path t); simpl; split; congruence.
  - intros image_list size H.
    destruct (get_image_list path t) as [| p l] eqn:E; simpl in H;
      [discriminate |].
    injection H as <- _. split; [reflexivity |]. split; [discriminate |].
    assert (Hin : In p (get_image_list path t)) by (rewrite E; now left).
    apply in_get_image_list in Hin as (r & f & Hat & Hpng & _). eauto.
Qed.

End DiscoveryClaims.

(** ** The camera table *)

Section PoseTableClaims.

Import PoseTable.
Local Open Scope string_scope.

Variables focal_t pose_t : Type.
Variable str_focal : focal_t -> string.
Variable str_pose : pose_t -> string.

Example img_labels_two : img_labels = ["img0"; "img1"].
Proof. reflexivity. Qed.

(** C5 at three views: the label column has two entries, the focal and
    pose columns three, the frame is refused and nothing is written. *)
Theorem write_poses_csv_three_views_raises
        (f0 f1 f2 : focal_t) (p0 p1 p2 : pose_t) :
  write_poses_csv str_focal str_pose [f0; f1; f2] [p0; p1; p2]
  = Raise ValueError.
Proof. reflexivity. Qed.

End PoseTableClaims.

(** ** Rounding *)

(** [lra] reads a rational through [inject_Z] only when it is a literal:
    every other injected integer is replaced by a fresh rational first. *)
Ltac hide_inject_Z :=
  repeat match goal with
         | H : context [inject_Z ?z] |- _ =>
             let q := fresh "q" in set (q := inject_Z z) in *; clearbody q
         | |- context [inject_Z ?z] =>
             let q := fresh "q" in set (q := inject_Z z) in *; clearbody q
         end.

Ltac qlra := hide_inject_Z; lra.

Section Rounding.

Import Numpy.

Lemma round_int_cases (x : Q) :
  let u := Qfloor (x + (1 # 2)) in
  (round_int x = u /\ ~ (x + (1 # 2) == inject_Z u /\ Z.odd u = true))
  \/ (round_int x = (u - 1)%Z /\ x + (1 # 2) == inject_Z u /\ Z.odd u = true).
Proof.
  intro u. unfold round_int. fold u.
  destruct (Qeq_bool (x + (1 # 2)) (inject_Z u)) eqn:E;
    destruct (Z.odd u) eqn:O; simpl.
  - right. apply Qeq_bool_iff in E. auto.
  - left. split; [reflexivity | intros [_ H]; discriminate].
  - left. split; [reflexivity | intros [H _]].
    apply Qeq_bool_iff in H. congruence.
  - left. split; [reflexivity | intros [_ H]; discriminate].
Qed.

Lemma inject_Z_pred (z : Z) : inject_Z (z - 1) == inject_Z z - 1.
Proof.
  unfold Z.sub. rewrite inject_Z_plus. reflexivity.
Qed.

Lemma inject_Z_succ (z : Z) : inject_Z (z + 1) == inject_Z z + 1.
Proof. rewrite inject_Z_plus. reflexivity. Qed.

(** The rounded value is within one half of the argument. *)
Lemma round_int_nearest (x : Q) :
  x - (1 # 2) <= inject_Z (round_int x) <= x + (1 # 2).
Proof.
  pose proof (Qfloor_le (x + (1 # 2))) as Hlo.
  pose proof (Qlt_floor (x + (1 # 2))) as Hhi.
  rewrite inject_Z_succ in Hhi.
  destruct (round_int_cases x) as [[-> _] | [-> [Heq _]]].
  - split; qlra.
  - rewrite inject_Z_pred. split; qlra.
Qed.

Lemma round_int_mono (x y : Q) : x <= y -> (round_int x <= round_int y)%Z.
Proof.
  intro Hxy.
  assert (Hu : (Qfloor (x + (1 # 2)) <= Qfloor (y + (1 # 2)))%Z)
    by (apply Qfloor_resp_le; lra).
  pose proof (Qfloor_le (x + (1 # 2))) as Hlo.
  destruct (round_int_cases x) as [[-> Hx] | [-> _]];
    destruct (round_int_cases y) as [[-> _] | [-> [Hy Oy]]]; try lia.
  destruct (Z.eq_dec (Qfloor (x + (1 # 2))) (Qfloor (y + (1 # 2))))
    as [E | NE]; [exfalso | lia].
  apply Hx. rewrite E. split; [| exact Oy].
  rewrite E in Hlo. qlra.
Qed.

(** Half-way between two integers the even one is chosen. *)
Lemma round_int_tie_even (x : Q) (u : Z) :
  x + (1 # 2) == inject_Z u -> Z.even (round_int x) = true.
Proof.
  intro E. assert (Hu : Qfloor (x + (1 # 2)) = u)
    by (rewrite E; apply Qfloor_Z).
  destruct (round_int_cases x) as [[-> Hno] | [-> [_ Hodd]]]; rewrite Hu in *.
  - rewrite <- Z.negb_odd. destruct (Z.odd u); [| reflexivity].
    exfalso. apply Hno. split; [exact E | reflexivity].
  - rewrite Z.even_sub. rewrite <- Z.negb_odd, Hodd. reflexivity.
Qed.

Lemma round_int_inject_Z (z : Z) : round_int (inject_Z z) = z.
Proof.
  pose proof (round_int_nearest (inject_Z z)) as [Hlo Hhi].
  assert (H1 : inject_Z (z - 1) < inject_Z (round_int (inject_Z z)))
    by (rewrite inject_Z_pred; qlra).
  assert (H2 : inject_Z (round_int (inject_Z z)) < inject_Z (z + 1))
    by (rewrite inject_Z_succ; qlra).
  rewrite <- Zlt_Qlt in H1, H2. lia.
Qed.

End Rounding.

(** ** [linspace] and the sampled indices *)

Section Linspace.

Import Numpy.

Lemma round_int_comp (x y : Q) : x == y -> round_int x = round_int y.
Proof.
  intro E. apply Z.le_antisymm; apply round_int_mono; rewrite E; apply Qle_refl.
Qed.

Lemma linspace_length (start stop : Q) (num : nat) :
  List.length (linspace start stop num) = num.
Proof.
  destruct num as [| div]; [reflexivity |].
  unfold linspace. now rewrite length_map, length_seq.
Qed.

(** The [i]-th sample of [linspace(0, stop, div + 1)] as the code computes
    it. *)
Lemma linspace_nth (stop : Q) (div i : nat) :
  (i <= div)%nat ->
  nth_error (linspace 0 stop (S div)) i
  = Some (if ((0 <? div)%nat && (i =? div)%nat)%bool then stop
          else inject_Z (Z.of_nat i) * ((stop - 0) / inject_Z (Z.of_nat div)) + 0).
Proof.
  intro Hi. unfold linspace.
  rewrite nth_error_map, nth_error_seq.
  replace (i <? S div)%nat with true by (symmetry; apply Nat.ltb_lt; lia).
  reflexivity.
Qed.

(** Every sample is the linear interpolation [i * stop / div]. *)
Lemma linspace_sample (stop : Q) (div i : nat) (x : Q) :
  (0 < div)%nat -> (i <= div)%nat ->
  nth_error (linspace 0 stop (S div)) i = Some x ->
  x == inject_Z (Z.of_nat i) * stop / inject_Z (Z.of_nat div).
Proof.
  intros Hd Hi Hx. rewrite (linspace_nth stop Hi) in Hx. injection Hx as <-.
  assert (Hd' : ~ inject_Z (Z.of_nat div) == 0).
  { unfold Qeq. simpl. lia. }
  replace (0 <? div)%nat with true by (symmetry; apply Nat.ltb_lt; lia).
  simpl andb. destruct (i =? div)%nat eqn:E.
  - apply Nat.eqb_eq in E. subst i. field. exact Hd'.
  - field. exact Hd'.
Qed.

End Linspace.

Section Sampler.

Import Numpy Viz.

Variable count : Z.
Variable div : nat.
Hypothesis div_pos : (0 < div)%nat.


Lemma div_pos_Q : 0 < inject_Z (Z.of_nat div).
Proof. unfold Qlt. simpl. lia. Qed.

Lemma inject_nat_le (i j : nat) :
  (i <= j)%nat -> inject_Z (Z.of_nat i) <= inject_Z (Z.of_nat j).
Proof. intro H. rewrite <- Zle_Qle. lia. Qed.

Lemma inject_nat_nonneg (i : nat) : 0 <= inject_Z (Z.of_nat i).
Proof. change 0 with (inject_Z 0). rewrite <- Zle_Qle. lia. Qed.

Lemma stop_nonneg : (1 <= count)%Z -> 0 <= inject_Z (count - 1).
Proof. intro H. change 0 with (inject_Z 0). rewrite <- Zle_Qle. lia. Qed.

(** The interpolated positions grow with the index. *)
Lemma interp_mono (i j : nat) :
  (1 <= count)%Z -> (i <= j)%nat ->
  inject_Z (Z.of_nat i) * inject_Z (count - 1) / inject_Z (Z.of_nat div) <= inject_Z (Z.of_nat j) * inject_Z (count - 1) / inject_Z (Z.of_nat div).
Proof.
  intros Hc Hij. unfold Qdiv. apply Qmult_le_compat_r.
  - pose proof (stop_nonneg Hc). pose proof (inject_nat_le Hij).
    pose proof (inject_nat_nonneg i). hide_inject_Z. nra.
  - apply Qlt_le_weak, Qinv_lt_0_compat, div_pos_Q.
Qed.

Lemma interp_first : inject_Z (Z.of_nat 0) * inject_Z (count - 1) / inject_Z (Z.of_nat div) == 0.
Proof. unfold Qdiv. simpl Z.of_nat. ring. Qed.

Lemma interp_last : inject_Z (Z.of_nat div) * inject_Z (count - 1) / inject_Z (Z.of_nat div) == inject_Z (count - 1).
Proof.
  field. intro E. pose proof div_pos_Q as H. rewrite E in H. discriminate.
Qed.

Lemma idx_nth (k i : nat) (z : Z) :
  nth_error (match_idx_to_viz count k) i = Some z <->
  exists x, nth_error (linspace 0 (inject_Z (count - 1)) k) i = Some x /\ z = round_int x.
Proof.
  unfold match_idx_to_viz. rewrite nth_error_map.
  destruct (nth_error (linspace 0 (inject_Z (count - 1)) k) i) as [x |]; simpl; split.
  - intros [= <-]. eauto.
  - intros (x' & [= <-] & ->). reflexivity.
  - discriminate.
  - intros (x' & [=] & _).
Qed.

Lemma idx_sample (i : nat) (z : Z) :
  nth_error (match_idx_to_viz count (S div)) i = Some z ->
  (i <= div)%nat
  /\ z = round_int (inject_Z (Z.of_nat i) * inject_Z (count - 1) / inject_Z (Z.of_nat div)).
Proof.
  intro H. apply idx_nth in H as (x & Hx & ->).
  assert (Hi : (i <= div)%nat).
  { assert (i < List.length (linspace 0 (inject_Z (count - 1)) (S div)))%nat
      by (apply nth_error_Some; congruence).
    rewrite linspace_length in H. lia. }
  split; [exact Hi |].
  apply round_int_comp. exact (linspace_sample (inject_Z (count - 1)) div_pos Hi Hx).
Qed.

Lemma idx_nondecreasing :
  (1 <= count)%Z -> nondecreasing (match_idx_to_viz count (S div)).
Proof.
  intros Hc i j a b Hij Ha Hb.
  apply idx_sample in Ha as [_ ->]. apply idx_sample in Hb as [_ ->].
  apply round_int_mono, interp_mono; assumption.
Qed.

Lemma idx_in_range :
  (1 <= count)%Z -> Forall (in_range count) (match_idx_to_viz count (S div)).
Proof.
  intro Hc. apply Forall_forall. intros z Hz.
  apply In_nth_error in Hz as [i Hi]. apply idx_sample in Hi as [Hi ->].
  unfold in_range. split.
  - rewrite <- (round_int_inject_Z 0) at 1.
    apply round_int_mono. change (inject_Z 0) with 0.
    rewrite <- interp_first. apply interp_mono; [exact Hc | lia].
  - rewrite <- (round_int_inject_Z (count - 1)) at 2.
    apply round_int_mono. rewrite <- interp_last at 2.
    apply interp_mono; [exact Hc | lia].
Qed.

End Sampler.

(** ** Indexing with the sampled indices *)

Section Indexing.

Import Numpy Viz.

Variable A : Type.

Lemma getitem_in_range (a : list A) (i : Z) :
  in_range (Z.of_nat (List.length a)) i ->
  exists x, getitem a i = Ok x /\ nth_error a (Z.to_nat i) = Some x.
Proof.
  unfold in_range, getitem. intros [Hlo Hhi].
  replace (i <? 0)%Z with false by (symmetry; apply Z.ltb_ge; lia).
  replace (0 <=? i)%Z with true by (symmetry; apply Z.leb_le; lia).
  replace (i <? Z.of_nat (List.length a))%Z with true
    by (symmetry; apply Z.ltb_lt; lia).
  simpl. destruct (nth_error a (Z.to_nat i)) as [x |] eqn:E.
  - eauto.
  - apply nth_error_None in E. lia.
Qed.

Lemma getitem_empty (i : Z) : getitem (@nil A) i = Raise IndexError.
Proof.
  unfold getitem. simpl.
  destruct (i <? 0)%Z eqn:E.
  - replace (0 <=? i + 0)%Z with false; [reflexivity |].
    symmetry. apply Z.leb_gt. apply Z.ltb_lt in E. lia.
  - destruct (0 <=? i)%Z; simpl; [| reflexivity].
    replace (i <? 0)%Z with false; reflexivity.
Qed.

Lemma take_in_range (a : list A) (idx : list Z) :
  Forall (in_range (Z.of_nat (List.length a))) idx ->
  exists v, take a idx = Ok v /\ List.length v = List.length idx.
Proof.
  unfold take. induction 1 as [| i idx Hi _ IH]; simpl.
  - exists []. split; reflexivity.
  - destruct (getitem_in_range a Hi) as (x & -> & _).
    destruct IH as (v & -> & Hlen). simpl.
    exists (x :: v). split; [reflexivity | simpl; congruence].
Qed.

Lemma take_empty (i : Z) (idx : list Z) :
  take (@nil A) (i :: idx) = Raise IndexError.
Proof. unfold take. simpl. now rewrite getitem_empty. Qed.

Lemma viz_matches_in_range (m0 m1 : list A) (count : Z) (idx : list Z) :
  Z.of_nat (List.length m0) = count -> Z.of_nat (List.length m1) = count ->
  Forall (in_range count) idx ->
  exists v0 v1, viz_matches m0 m1 idx = Ok (v0, v1)
                /\ List.length v0 = List.length idx
                /\ List.length v1 = List.length idx.
Proof.
  intros H0 H1 Hidx. unfold viz_matches.
  destruct (@take_in_range m0 idx) as (v0 & -> & L0); [now rewrite H0 |].
  destruct (@take_in_range m1 idx) as (v1 & -> & L1); [now rewrite H1 |].
  simpl. eauto.
Qed.

End Indexing.

(** ** The sampler *)

Example sample_10_10 :
  Viz.match_idx_to_viz 10 10 = [0; 1; 2; 3; 4; 5; 6; 7; 8; 9]%Z.
Proof. vm_compute. reflexivity. Qed.

Example sample_100_10 :
  Viz.match_idx_to_viz 100 10 = [0; 11; 22; 33; 44; 55; 66; 77; 88; 99]%Z.
Proof. vm_compute. reflexivity. Qed.

Example sample_3_10 :
  Viz.match_idx_to_viz 3 10 = [0; 0; 0; 1; 1; 1; 1; 2; 2; 2]%Z.
Proof. vm_compute. reflexivity. Qed.

Example sample_0_10 :
  Viz.match_idx_to_viz 0 10 = [0; 0; 0; 0; 0; -1; -1; -1; -1; -1]%Z.
Proof. vm_compute. reflexivity. Qed.

Example sample_tie_even :
  Viz.match_idx_to_viz 2 3 = [0; 0; 1]%Z /\ Viz.match_idx_to_viz 4 3 = [0; 2; 3]%Z.
Proof. vm_compute. split; reflexivity. Qed.

(** C10: for a match count of at least one and a sample size of at least
    two, the sampled indices never step down, each lies in
    [0 .. count - 1], and indexing the two match arrays (of [count] rows
    each) with them raises nothing. *)
Theorem sampled_indices_sorted_in_range (count : Z) (k : nat) :
  (1 <= count)%Z -> (2 <= k)%nat ->
  Viz.nondecreasing (Viz.match_idx_to_viz count k)
  /\ Forall (Viz.in_range count) (Viz.match_idx_to_viz count k)
  /\ forall (A : Type) (matches_im0 matches_im1 : list A),
      Z.of_nat (List.length matches_im0) = count ->
      Z.of_nat (List.length matches_im1) = count ->
      exists v0 v1,
        Viz.viz_matches matches_im0 matches_im1 (Viz.match_idx_to_viz count k)
        = Ok (v0, v1).
Proof.
  intros Hc Hk. destruct k as [| div]; [lia |].
  assert (Hd : (0 < div)%nat) by lia.
  split; [| split].
  - apply idx_nondecreasing; assumption.
  - apply idx_in_range; assumption.
  - intros A m0 m1 H0 H1.
    destruct (@viz_matches_in_range A m0 m1 count
                (Viz.match_idx_to_viz count (S div)) H0 H1)
      as (v0 & v1 & E & _).
    + apply idx_in_range; assumption.
    + eauto.
Qed.

Lemma sampled_indices_sorted_in_range_witness :
  Viz.nondecreasing (Viz.match_idx_to_viz 3 10)
  /\ Forall (Viz.in_range 3) (Viz.match_idx_to_viz 3 10)
  /\ forall (A : Type) (matches_im0 matches_im1 : list A),
      Z.of_nat (List.length matches_im0) = 3%Z ->
      Z.of_nat (List.length matches_im1) = 3%Z ->
      exists v0 v1,
        Viz.viz_matches matches_im0 matches_im1 (Viz.match_idx_to_viz 3 10)
        = Ok (v0, v1).
Proof.
  apply (@sampled_indices_sorted_in_range 3 10); lia.
Defined.

Lemma match_idx_to_viz_length (count : Z) (k : nat) :
  List.length (Viz.match_idx_to_viz count k) = k.
Proof.
  unfold Viz.match_idx_to_viz. now rewrite length_map, linspace_length.
Qed.

(** C3, as the claim states it, fails: three matches sampled ten times
    give ten indices, not [min 10 3]. *)
Lemma sampler_returns_min_refuted :
  List.length (Viz.match_idx_to_viz 3 Viz.n_viz) <> Nat.min Viz.n_viz 3.
Proof. vm_compute. discriminate. Qed.

(** C3 (amended): with at least one match and fewer matches than samples,
    the sampler returns exactly [k] indices, repeats included, each within
    [0 .. count - 1], and indexing the match arrays with them raises
    nothing and yields [k] rows. *)
Theorem sampler_fewer_matches_than_samples (count : Z) (k : nat) :
  (1 <= count)%Z -> (count < Z.of_nat k)%Z ->
  List.length (Viz.match_idx_to_viz count k) = k
  /\ Forall (Viz.in_range count) (Viz.match_idx_to_viz count k)
  /\ forall (A : Type) (matches_im0 matches_im1 : list A),
      Z.of_nat (List.length matches_im0) = count ->
      Z.of_nat (List.length matches_im1) = count ->
      exists v0 v1,
        Viz.viz_matches matches_im0 matches_im1 (Viz.match_idx_to_viz count k)
        = Ok (v0, v1)
        /\ List.length v0 = k /\ List.length v1 = k.
Proof.
  intros Hc Hk. destruct k as [| div]; [lia |].
  assert (Hd : (0 < div)%nat) by lia.
  pose proof (idx_in_range Hd Hc) as Hr.
  split; [apply match_idx_to_viz_length | split; [exact Hr |]].
  intros A m0 m1 H0 H1.
  destruct (viz_matches_in_range m0 m1 H0 H1 Hr) as (v0 & v1 & E & L0 & L1).
  rewrite match_idx_to_viz_length in L0, L1. eauto.
Qed.

Lemma sampler_fewer_matches_than_samples_witness :
  List.length (Viz.match_idx_to_viz 3 10) = 10%nat
  /\ Forall (Viz.in_range 3) (Viz.match_idx_to_viz 3 10)
  /\ forall (A : Type) (matches_im0 matches_im1 : list A),
      Z.of_nat (List.length matches_im0) = 3%Z ->
      Z.of_nat (List.length matches_im1) = 3%Z ->
      exists v0 v1,
        Viz.viz_matches matches_im0 matches_im1 (Viz.match_idx_to_viz 3 10)
        = Ok (v0, v1)
        /\ List.length v0 = 10%nat /\ List.length v1 = 10%nat.
Proof.
  apply (@sampler_fewer_matches_than_samples 3 10); lia.
Defined.

(** C4: the sampler returns [k] indices; the [i]-th one is the linear
    interpolation [i * (count - 1) / (k - 1)] rounded to a nearest
    integer, the first one is [0] and the last one [count - 1]; ten
    matches sampled ten times give [0 .. 9], and the ten samples of a
    hundred matches include [0] and [99]. *)
Theorem sampler_evenly_spaced (count : Z) (k : nat) :
  List.length (Viz.match_idx_to_viz count k) = k
  /\ (forall i z, (2 <= k)%nat ->
        nth_error (Viz.match_idx_to_viz count k) i = Some z ->
        Qabs (inject_Z z
              - inject_Z (Z.of_nat i) * inject_Z (count - 1)
                / inject_Z (Z.of_nat (k - 1))) <= 1 # 2)
  /\ ((2 <= k)%nat ->
      nth_error (Viz.match_idx_to_viz count k) 0 = Some 0%Z
      /\ nth_error (Viz.match_idx_to_viz count k) (k - 1) = Some (count - 1)%Z)
  /\ Viz.match_idx_to_viz 10 10 = [0; 1; 2; 3; 4; 5; 6; 7; 8; 9]%Z
  /\ (List.length (Viz.match_idx_to_viz 100 10) = 10%nat
      /\ In 0%Z (Viz.match_idx_to_viz 100 10)
      /\ In 99%Z (Viz.match_idx_to_viz 100 10)).
Proof.
  split; [apply match_idx_to_viz_length |].
  split; [| split; [| split; [vm_compute; reflexivity |]]].
  - intros i z Hk Hz. destruct k as [| div]; [lia |].
    assert (Hd : (0 < div)%nat) by lia.
    apply (@idx_sample count div Hd) in Hz as [_ ->].
    replace (S div - 1)%nat with div by lia.
    apply Qabs_Qle_condition.
    pose proof (round_int_nearest
                  (inject_Z (Z.of_nat i) * inject_Z (count - 1)
                   / inject_Z (Z.of_nat div))) as [Hlo Hhi].
    split; lra.
  - intro Hk. destruct k as [| div]; [lia |].
    assert (Hd : (0 < div)%nat) by lia.
    replace (S div - 1)%nat with div by lia.
    split; apply idx_nth.
    + exists (inject_Z (Z.of_nat 0) * ((inject_Z (count - 1) - 0)
                                        / inject_Z (Z.of_nat div)) + 0).
      split.
      * rewrite linspace_nth by lia.
        replace (0 =? div)%nat with false by (symmetry; apply Nat.eqb_neq; lia).
        now rewrite andb_false_r.
      * rewrite <- (round_int_inject_Z 0) at 1.
        apply round_int_comp. simpl Z.of_nat. unfold Qdiv.
        change (inject_Z 0) with 0. ring.
    + exists (inject_Z (count - 1)). split.
      * rewrite linspace_nth by lia.
        rewrite Nat.eqb_refl.
        replace (0 <? div)%nat with true by (symmetry; apply Nat.ltb_lt; lia).
        reflexivity.
      * symmetry. apply round_int_inject_Z.
  - vm_compute. intuition.
Qed.

(** ** The exact sampler against binary64 *)

(** X1: for the script's ten samples the binary64 computation gives the
    indices of the exact one, on every match count up to three thousand
    and on a few large ones. *)
Example sampler_agrees_with_binary64 :
  forallb (Float64.agrees Viz.n_viz)
          (map Z.of_nat (seq 0 3001)
           ++ [65536; 1000000; 2073600; 123456789; 4294967296]%Z)
  = true.
Proof. vm_compute. reflexivity. Qed.

(** ** Nearest neighbours *)

Section Nearest.

Import Matching.

Lemma argmin_from_spec (ds : list Q) :
  forall (pre : list Q) (best : nat) (dbest : Q),
    nth_error pre best = Some dbest ->
    (forall k dk, nth_error pre k = Some dk -> dbest <= dk) ->
    (forall k dk, (k < best)%nat -> nth_error pre k = Some dk -> dbest < dk) ->
    is_argmin (pre ++ ds) (argmin_from best dbest (List.length pre) ds).
Proof.
  induction ds as [| d ds IH]; intros pre best dbest Hbest Hmin Hfirst.
  - simpl. rewrite app_nil_r. exists dbest. auto.
  - assert (Hlt : (best < List.length pre)%nat)
      by (apply nth_error_Some; congruence).
    assert (Hsnoc : forall k dk,
               nth_error (pre ++ [d]) k = Some dk ->
               nth_error pre k = Some dk \/ (k = List.length pre /\ dk = d)).
    { intros k dk Hk. destruct (Nat.lt_ge_cases k (List.length pre)).
      - left. now rewrite nth_error_app1 in Hk.
      - right. rewrite nth_error_app2 in Hk by assumption.
        destruct (k - List.length pre)%nat as [| n] eqn:E; simpl in Hk.
        + split; [lia | congruence].
        + now destruct n. }
    replace (pre ++ d :: ds) with ((pre ++ [d]) ++ ds)
      by (now rewrite <- app_assoc).
    simpl. replace (S (List.length pre)) with (List.length (pre ++ [d]))
      by (rewrite length_app; simpl; lia).
    destruct (Qle_bool dbest d) eqn:E.
    + apply Qle_bool_iff in E. apply IH.
      * now rewrite nth_error_app1.
      * intros k dk Hk. destruct (Hsnoc _ _ Hk) as [Hk' | [_ ->]]; eauto.
      * intros k dk Hkb Hk. destruct (Hsnoc _ _ Hk) as [Hk' | [-> _]];
          [eauto | lia].
    + assert (Hd : d < dbest).
      { apply Qnot_le_lt. intro Hle. apply Qle_bool_iff in Hle. congruence. }
      rewrite length_app. simpl.
      replace (List.length pre + 1)%nat with (List.length (pre ++ [d]))
        by (rewrite length_app; reflexivity).
      apply IH.
      * rewrite nth_error_app2 by lia. now rewrite Nat.sub_diag.
      * intros k dk Hk. destruct (Hsnoc _ _ Hk) as [Hk' | [_ ->]].
        -- apply Qlt_le_weak. eapply Qlt_le_trans; [exact Hd | eauto].
        -- apply Qle_refl.
      * intros k dk Hkb Hk. destruct (Hsnoc _ _ Hk) as [Hk' | [-> _]];
          [| lia].
        eapply Qlt_le_trans; [exact Hd | eauto].
Qed.

Lemma argmin_spec (ds : list Q) (j : nat) :
  argmin ds = Some j -> is_argmin ds j.
Proof.
  destruct ds as [| d ds]; [discriminate |]. intros [= <-].
  apply (@argmin_from_spec ds [d] 0%nat d).
  - reflexivity.
  - intros [| k] dk Hk; simpl in Hk.
    + injection Hk as <-. apply Qle_refl.
    + now destruct k.
  - intros k dk Hk. lia.
Qed.

Lemma argmin_none (ds : list Q) : argmin ds = None <-> ds = [].
Proof. destruct ds; simpl; split; congruence. Qed.

(** What [nearest] returns is the nearest point, the first of them when
    several are as near. *)
Lemma nearest_spec (P : list point3) (q : point3) (j : nat) :
  nearest P q = Some j -> is_nearest P q j.
Proof.
  unfold nearest. intro H. apply argmin_spec in H as (dj & Hj & Hmin & Hfirst).
  rewrite nth_error_map in Hj.
  destruct (nth_error P j) as [pj |] eqn:Ej; [| discriminate].
  injection Hj as <-. exists pj. split; [exact Ej |]. split.
  - intros k pk Hk. apply (Hmin k). now rewrite nth_error_map, Hk.
  - intros k pk Hkj Hk. apply (Hfirst k); [exact Hkj |].
    now rewrite nth_error_map, Hk.
Qed.

Lemma nearest_none (P : list point3) (q : point3) :
  nearest P q = None <-> P = [].
Proof.
  unfold nearest. rewrite argmin_none. destruct P; simpl; split; congruence.
Qed.

Lemma option_nat_eqb_some (x : option nat) (n : nat) :
  option_nat_eqb x (Some n) = true <-> x = Some n.
Proof.
  destruct x as [m |]; simpl; [| split; discriminate].
  rewrite Nat.eqb_eq. split; congruence.
Qed.

(** An accepted pair is a pair of mutual nearest neighbours. *)
Lemma accept_mutual (A B : list point3) (a b : nat) :
  accept A B a b = true ->
  exists pa pb,
    nth_error A a = Some pa /\ nth_error B b = Some pb
    /\ is_nearest B pa b /\ is_nearest A pb a.
Proof.
  unfold accept, nnB, nnA. rewrite andb_true_iff, !option_nat_eqb_some.
  intros [HB HA].
  destruct (nth_error A a) as [pa |]; [| discriminate].
  destruct (nth_error B b) as [pb |]; [| discriminate].
  exists pa, pb. auto using nearest_spec.
Qed.

End Nearest.

(** ** The reciprocal matcher *)

Section Matcher.

Import Numpy Matching.

Lemma compress_In (X : Type) (l : list X) (mask : list bool) (x : X) :
  In x (compress l mask) <->
  exists i, nth_error l i = Some x /\ nth_error mask i = Some true.
Proof.
  revert mask. induction l as [| y l IH]; intros [| m mask]; simpl.
  - split; [contradiction | intros ([| i] & H & _); discriminate].
  - split; [contradiction | intros ([| i] & H & _); discriminate].
  - split; [contradiction | intros ([| i] & _ & H); discriminate].
  - destruct m; simpl; rewrite ?IH; split.
    + intros [-> | (i & H1 & H2)]; [exists 0%nat | exists (S i)]; auto.
    + intros ([| i] & H1 & H2); simpl in *; [left; congruence | eauto].
    + intros (i & H1 & H2). exists (S i). auto.
    + intros ([| i] & H1 & H2); simpl in *; [discriminate | eauto].
Qed.

Lemma compress_length (X : Type) (l : list X) (mask : list bool) :
  List.length l = List.length mask ->
  Z.of_nat (List.length (compress l mask)) = count_true mask.
Proof.
  unfold count_true. revert mask.
  induction l as [| y l IH]; intros [| m mask] H; simpl in *;
    try discriminate; [reflexivity |].
  injection H as H. specialize (IH _ H). destruct m; simpl; lia.
Qed.

Lemma nth_error_combine (X Y : Type) (l1 : list X) (l2 : list Y)
      (i : nat) (x : X) (y : Y) :
  nth_error (combine l1 l2) i = Some (x, y) <->
  nth_error l1 i = Some x /\ nth_error l2 i = Some y.
Proof.
  revert l2 i. induction l1 as [| a l1 IH]; intros [| b l2] [| i]; simpl;
    try (split; [discriminate | intros [? ?]; discriminate]).
  - split; [intros [= -> ->]; auto | intros [[= ->] [= ->]]; reflexivity].
  - apply IH.
Qed.

Variables A B : list point3.

Lemma nn2_in_P1_nth (b : nat) :
  (b < List.length B)%nat ->
  nth_error (nn2_in_P1 A B) b
  = Some (match nnA A B b with Some a => a | None => List.length A end).
Proof.
  intro Hb. unfold nn2_in_P1. rewrite nth_error_map, nth_error_seq.
  apply Nat.ltb_lt in Hb. now rewrite Hb.
Qed.

Lemma reciprocal_in_P2_nth (b : nat) (m : bool) :
  nth_error (reciprocal_in_P2 A B) b = Some m ->
  (b < List.length B)%nat
  /\ m = accept A B
              (match nnA A B b with Some a => a | None => List.length A end) b.
Proof.
  unfold reciprocal_in_P2. rewrite nth_error_map, nth_error_seq.
  destruct (Nat.ltb_spec b (List.length B)) as [Hb | Hb]; [| discriminate].
  simpl. intros [= <-]. split; [exact Hb |].
  now rewrite (nth_error_nth _ _ _ (nn2_in_P1_nth Hb)).
Qed.

Lemma reciprocal_in_P2_length :
  List.length (reciprocal_in_P2 A B) = List.length B.
Proof. unfold reciprocal_in_P2. now rewrite length_map, length_seq. Qed.

Lemma nn2_in_P1_length : List.length (nn2_in_P1 A B) = List.length B.
Proof. unfold nn2_in_P1. now rewrite length_map, length_seq. Qed.

(** The pairs read off the results are accepted pairs. *)
Lemma index_pairs_accept (a b : Z) :
  In (a, b) (index_pairs (find_reciprocal_matches A B)) ->
  (0 <= a)%Z /\ (0 <= b)%Z
  /\ accept A B (Z.to_nat a) (Z.to_nat b) = true.
Proof.
  unfold index_pairs, find_reciprocal_matches. intro H.
  apply compress_In in H as (i & Hi & Hm).
  apply nth_error_combine in Hi as [Ha Hb].
  apply reciprocal_in_P2_nth in Hm as [Hlt Hm].
  rewrite nth_error_map, (nn2_in_P1_nth Hlt) in Ha. injection Ha as <-.
  rewrite nth_error_map, nth_error_seq, reciprocal_in_P2_length in Hb.
  apply Nat.ltb_lt in Hlt. rewrite Hlt in Hb. injection Hb as <-.
  simpl. rewrite !Nat2Z.id. repeat split; try lia. now symmetry.
Qed.

End Matcher.

(** C1: every pair of indices the matcher returns is a pair of mutual
    nearest neighbours: among the second set no point is nearer to point
    [a] of the first set than point [b], and among the first set no point
    is nearer to [b] than [a] (squared Euclidean distance in 3D; of
    several points as near, the first). *)
Theorem reciprocal_matches_mutual_nearest
        (A B : list Matching.point3) (a b : Z) :
  In (a, b) (Matching.index_pairs (Matching.find_reciprocal_matches A B)) ->
  exists pa pb,
    (0 <= a)%Z /\ (0 <= b)%Z
    /\ nth_error A (Z.to_nat a) = Some pa
    /\ nth_error B (Z.to_nat b) = Some pb
    /\ Matching.is_nearest B pa (Z.to_nat b)
    /\ Matching.is_nearest A pb (Z.to_nat a).
Proof.
  intro H. apply index_pairs_accept in H as (Ha & Hb & Hacc).
  apply accept_mutual in Hacc as (pa & pb & HA & HB & HnB & HnA).
  exists pa, pb. auto 7.
Qed.

Lemma reciprocal_matches_mutual_nearest_witness :
  exists pa pb,
    (0 <= 1)%Z /\ (0 <= 0)%Z
    /\ nth_error Samples.cloud0 (Z.to_nat 1) = Some pa
    /\ nth_error Samples.cloud1 (Z.to_nat 0) = Some pb
    /\ Matching.is_nearest Samples.cloud1 pa (Z.to_nat 0)
    /\ Matching.is_nearest Samples.cloud0 pb (Z.to_nat 1).
Proof.
  apply (@reciprocal_matches_mutual_nearest Samples.cloud0 Samples.cloud1 1 0).
  vm_compute. left. reflexivity.
Defined.

(** ** Matching and sampling in sequence *)

Section Degenerate.

Import Numpy Matching Viz.

Variable pixel : Type.

Lemma compress_no_mask (X : Type) (a : list X) : compress a [] = [].
Proof. now destruct a. Qed.

Lemma mask_select_ok (X : Type) (a : list X) (mask : list bool) (r : list X) :
  mask_select a mask = Ok r ->
  (List.length mask = List.length a \/ mask = []) /\ r = compress a mask.
Proof.
  unfold mask_select.
  destruct (Nat.eqb_spec (List.length mask) (List.length a)) as [E | _];
    simpl.
  - intros [= <-]. auto.
  - destruct (Nat.eqb_spec (List.length mask) 0) as [E |]; [| discriminate].
    intros [= <-]. apply length_zero_iff_nil in E. auto.
Qed.

(** A mask of the size of the array is always accepted. *)
Lemma mask_select_fits (X : Type) (a : list X) (mask : list bool) :
  List.length mask = List.length a ->
  mask_select a mask = Ok (compress a mask).
Proof. intro E. unfold mask_select. now rewrite E, Nat.eqb_refl. Qed.

Lemma mask_select_raise (X : Type) (a : list X) (mask : list bool) (e : exn) :
  mask_select a mask = Raise e -> e = IndexError.
Proof.
  unfold mask_select.
  destruct ((List.length mask =? List.length a)%nat
            || (List.length mask =? 0)%nat)%bool; congruence.
Qed.

(** Two arrays masked with the same mask keep the same number of rows. *)
Lemma mask_select_same_length (X Y : Type) (a : list X) (b : list Y)
      (mask : list bool) (ra : list X) (rb : list Y) :
  mask_select a mask = Ok ra -> mask_select b mask = Ok rb ->
  List.length ra = List.length rb.
Proof.
  intros Ha Hb.
  apply mask_select_ok in Ha as [[La | La] ->], Hb as [[Lb | Lb] ->];
    subst; rewrite ?compress_no_mask; try reflexivity.
  apply Nat2Z.inj. rewrite !compress_length; congruence.
Qed.

Lemma matches_empty_second (pts2d_0 : list pixel) (P1 : list point3) :
  matches pts2d_0 [] P1 [] = Ok ([], [], 0%Z).
Proof. reflexivity. Qed.

Lemma matches_empty_first (pts2d_1 : list pixel) (p : point3)
      (P2 : list point3) :
  matches [] pts2d_1 [] (p :: P2) = Raise IndexError.
Proof.
  unfold matches, find_reciprocal_matches.
  destruct (mask_select pts2d_1 (reciprocal_in_P2 [] (p :: P2)))
    as [m1 | e] eqn:E; cbn [bind].
  - destruct (map Z.of_nat (nn2_in_P1 [] (p :: P2))) as [| i idx] eqn:E2.
    + apply (f_equal (@List.length Z)) in E2.
      rewrite length_map, nn2_in_P1_length in E2. discriminate.
    + now rewrite take_empty.
  - now rewrite (mask_select_raise _ _ E).
Qed.

(** With no point left on either side the run ends in [IndexError]: in
    the matching statements when the first set is empty and the second is
    not, at the sampled access otherwise. *)
Lemma match_and_sample_degenerate (v0 v1 : view pixel)
      (P1 P2 : list point3) :
  mask_select (pts3d v0) (conf v0) = Ok P1 ->
  mask_select (pts3d v1) (conf v1) = Ok P2 ->
  P1 = [] \/ P2 = [] ->
  match_and_sample v0 v1 = Raise IndexError.
Proof.
  intros H0 H1 Hempty. unfold match_and_sample.
  destruct (mask_select (xy_grid v0) (conf v0)) as [pts2d_0 | e] eqn:G0;
    simpl; [| now rewrite (mask_select_raise _ _ G0)].
  rewrite H0. simpl.
  destruct (mask_select (xy_grid v1) (conf v1)) as [pts2d_1 | e] eqn:G1;
    simpl; [| now rewrite (mask_select_raise _ _ G1)].
  rewrite H1. simpl.
  pose proof (@mask_select_same_length _ _ _ _ _ _ _ G0 H0) as L0.
  pose proof (@mask_select_same_length _ _ _ _ _ _ _ G1 H1) as L1.
  destruct P2 as [| p P2].
  - destruct pts2d_1; [| discriminate].
    rewrite matches_empty_second. simpl. unfold viz_matches.
    change (match_idx_to_viz 0 n_viz)
      with [0; 0; 0; 0; 0; -1; -1; -1; -1; -1]%Z.
    now rewrite take_empty.
  - destruct Hempty as [-> | Hempty]; [| discriminate].
    destruct pts2d_0; [| discriminate].
    now rewrite matches_empty_first.
Qed.

(** Without points on one side the matcher reports no match. *)
Lemma find_reciprocal_matches_degenerate (A B : list point3) :
  A = [] \/ B = [] ->
  snd (find_reciprocal_matches A B) = 0%Z
  /\ index_pairs (find_reciprocal_matches A B) = [].
Proof.
  intros [-> | ->]; [| split; reflexivity].
  assert (Hall : forall b m,
             nth_error (reciprocal_in_P2 [] B) b = Some m -> m = false).
  { intros b m Hm. apply reciprocal_in_P2_nth in Hm as [_ ->].
    unfold accept, nnB. now rewrite nth_error_nil. }
  assert (Hnone : forall X (l : list X),
             compress l (reciprocal_in_P2 [] B) = []).
  { intros X l. destruct (compress l (reciprocal_in_P2 [] B)) as [| x r] eqn:E;
      [reflexivity |].
    assert (Hin : In x (compress l (reciprocal_in_P2 [] B)))
      by (rewrite E; now left).
    apply compress_In in Hin as (i & _ & Hm). now apply Hall in Hm. }
  split.
  - simpl. rewrite <- (compress_length (reciprocal_in_P2 [] B)
                                       (reciprocal_in_P2 [] B) eq_refl).
    now rewrite Hnone.
  - unfold index_pairs, find_reciprocal_matches. apply Hnone.
Qed.

End Degenerate.

Section Regular.

Import Numpy Matching Viz.

Variable pixel : Type.
Variables A B : list point3.
Hypothesis A_not_empty : A <> [].

Lemma nn2_in_P1_in_range :
  Forall (in_range (Z.of_nat (List.length A))) (map Z.of_nat (nn2_in_P1 A B)).
Proof.
  apply Forall_map, Forall_forall. intros n Hn. unfold nn2_in_P1 in Hn.
  apply in_map_iff in Hn as (b & <- & Hb). apply in_seq in Hb as [_ Hb].
  unfold nnA. simpl in Hb.
  destruct (nth_error B b) as [p |] eqn:Eb;
    [| apply nth_error_None in Eb; lia].
  destruct (nearest A p) as [a |] eqn:Ea;
    [| apply nearest_none in Ea; contradiction].
  apply nearest_spec in Ea as (pa & Ha & _).
  assert (a < List.length A)%nat by (apply nth_error_Some; congruence).
  unfold in_range. lia.
Qed.

(** With points on the first side, lines 95-100 raise nothing, and both
    match arrays have [num_matches] rows. *)
Lemma matches_ok (pts2d_0 pts2d_1 : list pixel) :
  List.length pts2d_0 = List.length A ->
  List.length pts2d_1 = List.length B ->
  exists matches_im0 matches_im1,
    matches pts2d_0 pts2d_1 A B
    = Ok (matches_im0, matches_im1, snd (find_reciprocal_matches A B))
    /\ Z.of_nat (List.length matches_im0) = snd (find_reciprocal_matches A B)
    /\ Z.of_nat (List.length matches_im1) = snd (find_reciprocal_matches A B).
Proof.
  intros L0 L1. unfold matches, find_reciprocal_matches. simpl snd.
  rewrite (@mask_select_fits pixel pts2d_1)
    by (rewrite reciprocal_in_P2_length; congruence).
  cbn [bind].
  destruct (@take_in_range pixel pts2d_0 (map Z.of_nat (nn2_in_P1 A B)))
    as (nn_px & -> & Hlen); [rewrite L0; apply nn2_in_P1_in_range |].
  rewrite length_map, nn2_in_P1_length in Hlen. cbn [bind].
  rewrite (@mask_select_fits pixel nn_px)
    by (rewrite reciprocal_in_P2_length; congruence).
  cbn [bind]. eexists. eexists. split; [reflexivity |].
  split; apply compress_length; rewrite reciprocal_in_P2_length; congruence.
Qed.

End Regular.

(** ** The pairs of the matcher and the pixels of lines 99-100 *)

Section Pairs.

Import Numpy Matching.

Variables A B : list point3.

Lemma accept_bounds (a b : nat) :
  accept A B a b = true -> (a < List.length A)%nat /\ (b < List.length B)%nat.
Proof.
  intro H. apply accept_mutual in H as (pa & pb & Ha & Hb & _).
  split; apply nth_error_Some; congruence.
Qed.

Lemma accept_nnA (a b : nat) : accept A B a b = true -> nnA A B b = Some a.
Proof.
  unfold accept. rewrite andb_true_iff, !option_nat_eqb_some. now intros [_ H].
Qed.

(** The accepted pairs, listed in the order of the first set. *)
Lemma accepted_pairs_In (a b : nat) :
  In (a, b) (accepted_pairs A B) <-> accept A B a b = true.
Proof.
  unfold accepted_pairs. rewrite in_flat_map. split.
  - intros (a' & _ & H). apply in_map_iff in H as (b' & [= -> ->] & H).
    now apply filter_In in H.
  - intro H. destruct (accept_bounds _ _ H) as [Ha Hb].
    exists a. split; [apply in_seq; lia |].
    apply in_map, filter_In. split; [apply in_seq; lia | exact H].
Qed.

(** The pairs read off the three results are the accepted pairs, listed
    in the order of the second set. *)
Lemma index_pairs_In (a b : nat) :
  In (Z.of_nat a, Z.of_nat b) (index_pairs (find_reciprocal_matches A B))
  <-> In (a, b) (accepted_pairs A B).
Proof.
  rewrite accepted_pairs_In. split.
  - intro H. apply index_pairs_accept in H as (_ & _ & H).
    now rewrite !Nat2Z.id in H.
  - intro H. destruct (accept_bounds _ _ H) as [Ha Hb].
    pose proof (accept_nnA _ _ H) as Hnn.
    unfold index_pairs, find_reciprocal_matches.
    apply compress_In. exists b. split.
    + apply nth_error_combine. split.
      * rewrite nth_error_map, (@nn2_in_P1_nth A B b Hb), Hnn. reflexivity.
      * rewrite nth_error_map, nth_error_seq, reciprocal_in_P2_length.
        apply Nat.ltb_lt in Hb. now rewrite Hb.
    + unfold reciprocal_in_P2. rewrite nth_error_map, nth_error_seq.
      pose proof Hb as Hb'. apply Nat.ltb_lt in Hb'. rewrite Hb'. simpl.
      rewrite (nth_error_nth _ _ _ (@nn2_in_P1_nth A B b Hb)), Hnn.
      now rewrite H.
Qed.

End Pairs.

Section Pixels.

Import Numpy Matching.

Variables X Y : Type.

Lemma getitem_nonneg (a : list X) (i : Z) (x : X) :
  (0 <= i)%Z -> getitem a i = Ok x -> nth_error a (Z.to_nat i) = Some x.
Proof.
  unfold getitem. intro Hi.
  replace (i <? 0)%Z with false by (symmetry; apply Z.ltb_ge; lia).
  destruct ((0 <=? i)%Z && (i <? Z.of_nat (List.length a))%Z)%bool;
    [| discriminate].
  destruct (nth_error a (Z.to_nat i)); [congruence | discriminate].
Qed.

Lemma take_content (a : list X) (idx : list Z) (v : list X) :
  take a idx = Ok v -> Forall2 (fun i x => getitem a i = Ok x) idx v.
Proof.
  unfold take. revert v. induction idx as [| i idx IH]; intros v H; simpl in H.
  - injection H as <-. constructor.
  - destruct (getitem a i) as [x |] eqn:E; [| discriminate]. simpl in H.
    destruct (mapM (getitem a) idx) as [v' |]; [| discriminate].
    injection H as <-. constructor; auto.
Qed.

Lemma take_content_nonneg (a : list X) (idx : list Z) (v : list X) :
  Forall (fun i => (0 <= i)%Z) idx -> take a idx = Ok v ->
  Forall2 (fun i x => nth_error a (Z.to_nat i) = Some x) idx v.
Proof.
  intros Hpos H. apply take_content in H. revert Hpos.
  induction H as [| i x idx v Hix _ IH]; intro Hpos; constructor.
  - apply getitem_nonneg; [now inversion Hpos | exact Hix].
  - apply IH. now inversion Hpos.
Qed.

Lemma compress_Forall2 (R : X -> Y -> Prop) (l1 : list X) (l2 : list Y)
      (mask : list bool) :
  Forall2 R l1 l2 -> Forall2 R (compress l1 mask) (compress l2 mask).
Proof.
  intro H. revert mask. induction H as [| x y l1 l2 Hxy _ IH];
    intros [| m mask]; simpl; try constructor.
  destruct m; [constructor |]; auto.
Qed.

Lemma compress_combine (l1 : list X) (l2 : list Y) (mask : list bool) :
  compress (combine l1 l2) mask
  = combine (compress l1 mask) (compress l2 mask).
Proof.
  revert l2 mask. induction l1 as [| x l1 IH]; intros [| y l2] [| m mask];
    simpl; try reflexivity.
  - destruct m; simpl; [reflexivity | now destruct (compress l1 mask)].
  - destruct m; simpl; now rewrite IH.
Qed.

Lemma positions (l1 l2 : list X) :
  Forall2 (fun b x => nth_error (l1 ++ l2) (Z.to_nat b) = Some x)
          (map Z.of_nat (seq (List.length l1) (List.length l2))) l2.
Proof.
  revert l1. induction l2 as [| x l2 IH]; intro l1; simpl; constructor.
  - rewrite Nat2Z.id, nth_error_app2 by lia. now rewrite Nat.sub_diag.
  - specialize (IH (l1 ++ [x])).
    rewrite <- app_assoc, length_app, Nat.add_1_r in IH. exact IH.
Qed.

End Pixels.

Section MatchedPixels.

Import Numpy Matching.

Variable pixel : Type.

Lemma Forall2_combine (X1 X2 Y1 Y2 : Type) (R1 : X1 -> Y1 -> Prop)
      (R2 : X2 -> Y2 -> Prop) (l1 : list X1) (l1' : list Y1)
      (l2 : list X2) (l2' : list Y2) :
  Forall2 R1 l1 l1' -> Forall2 R2 l2 l2' ->
  Forall2 (fun p q => R1 (fst p) (fst q) /\ R2 (snd p) (snd q))
          (combine l1 l2) (combine l1' l2').
Proof.
  intro H1. revert l2 l2'. induction H1 as [| x y l1 l1' Hxy _ IH];
    intros l2 l2' H2; simpl; [constructor |].
  destruct H2 as [| x2 y2 l2 l2' Hxy2 H2]; constructor; auto.
Qed.

(** Lines 99-100 return, row by row, the pixels of the pairs of indices
    read off the matcher's results: [matches_im0[i]] is the pixel of
    point [a] of the first view and [matches_im1[i]] the pixel of point
    [b] of the second, for the [i]-th pair [(a, b)]. *)
Lemma matches_pixels (pts2d_0 pts2d_1 : list pixel) (A B : list point3)
      (matches_im0 matches_im1 : list pixel) (num_matches : Z) :
  matches pts2d_0 pts2d_1 A B = Ok (matches_im0, matches_im1, num_matches) ->
  Forall2 (fun ab xx =>
             nth_error pts2d_0 (Z.to_nat (fst ab)) = Some (fst xx)
             /\ nth_error pts2d_1 (Z.to_nat (snd ab)) = Some (snd xx))
          (index_pairs (find_reciprocal_matches A B))
          (combine matches_im0 matches_im1).
Proof.
  unfold matches, find_reciprocal_matches, index_pairs. intro H.
  destruct (mask_select pts2d_1 (reciprocal_in_P2 A B)) as [m1 |] eqn:E1;
    [| discriminate]. cbn [bind] in H.
  destruct (take pts2d_0 (map Z.of_nat (nn2_in_P1 A B))) as [nn_px |] eqn:E2;
    [| discriminate]. cbn [bind] in H.
  destruct (mask_select nn_px (reciprocal_in_P2 A B)) as [m0 |] eqn:E3;
    [| discriminate]. cbn [bind] in H.
  injection H as <- <- _.
  apply mask_select_ok in E1 as [L1 ->], E3 as [L3 ->].
  destruct L1 as [L1 | L1];
    [| rewrite L1, !compress_no_mask; constructor].
  rewrite <- compress_combine. apply compress_Forall2.
  apply (@Forall2_combine _ _ _ _
           (fun a x => nth_error pts2d_0 (Z.to_nat a) = Some x)
           (fun b x => nth_error pts2d_1 (Z.to_nat b) = Some x)).
  - apply take_content_nonneg; [| exact E2].
    apply Forall_map, Forall_forall. intros; lia.
  - rewrite L1. exact (positions [] pts2d_1).
Qed.

End MatchedPixels.

(** ** A run with matches *)

Section RegularRun.

Import Numpy Matching Viz.

Variable pixel : Type.

(** When both views have their three grids of one size and at least one
    pair is accepted, lines 88-113 raise nothing and return [n_viz] rows
    for each view. *)
Lemma match_and_sample_ok (v0 v1 : view pixel) :
  List.length (conf v0) = List.length (xy_grid v0) ->
  List.length (conf v0) = List.length (pts3d v0) ->
  List.length (conf v1) = List.length (xy_grid v1) ->
  List.length (conf v1) = List.length (pts3d v1) ->
  (1 <= snd (find_reciprocal_matches (compress (pts3d v0) (conf v0))
                                     (compress (pts3d v1) (conf v1))))%Z ->
  exists viz_matches_im0 viz_matches_im1,
    match_and_sample v0 v1 = Ok (viz_matches_im0, viz_matches_im1)
    /\ List.length viz_matches_im0 = n_viz
    /\ List.length viz_matches_im1 = n_viz.
Proof.
  intros G0 S0 G1 S1 Hnum. unfold match_and_sample.
  rewrite !mask_select_fits by congruence. cbn [bind].
  set (P1 := compress (pts3d v0) (conf v0)) in *.
  set (P2 := compress (pts3d v1) (conf v1)) in *.
  assert (HP1 : P1 <> []).
  { intros E. rewrite E in Hnum.
    destruct (@find_reciprocal_matches_degenerate [] P2 (or_introl eq_refl))
      as [Hz _].
    rewrite Hz in Hnum. lia. }
  destruct (@matches_ok pixel P1 P2 HP1 (compress (xy_grid v0) (conf v0))
                        (compress (xy_grid v1) (conf v1)))
    as (m0 & m1 & -> & L0 & L1).
  - apply Nat2Z.inj. unfold P1. rewrite !compress_length; congruence.
  - apply Nat2Z.inj. unfold P2. rewrite !compress_length; congruence.
  - cbn [bind].
    destruct (@viz_matches_in_range pixel m0 m1
                (snd (find_reciprocal_matches P1 P2))
                (match_idx_to_viz (snd (find_reciprocal_matches P1 P2)) n_viz)
                L0 L1)
      as (w0 & w1 & E & K0 & K1).
    + apply (@idx_in_range _ 9); [lia | exact Hnum].
    + rewrite match_idx_to_viz_length in K0, K1. eauto.
Qed.

End RegularRun.

(** C2 at views without a trusted pixel: whether the first view, the
    second or both have none, the run ends in [IndexError] before
    anything is displayed. *)
Theorem match_and_sample_without_points_raises :
  Viz.match_and_sample Samples.blind0 Samples.blind1 = Raise IndexError
  /\ Viz.match_and_sample Samples.blind0 Samples.seen1 = Raise IndexError
  /\ Viz.match_and_sample Samples.seen0 Samples.blind1 = Raise IndexError.
Proof. vm_compute. repeat split. Qed.

(** ** The canvas *)

Section CanvasClaims.

Import Viz.

Variable px : Type.
Variable zero : px.

Lemma nth_error_repeat_if (A : Type) (a : A) (n i : nat) :
  nth_error (repeat a n) i = if (i <? n)%nat then Some a else None.
Proof.
  revert i. induction n as [| n IH]; intro i; simpl.
  - now destruct i.
  - destruct i as [| i]; simpl; [reflexivity |]. rewrite IH.
    reflexivity.
Qed.

Lemma well_shaped_row (im : image px) (y : nat) (row : list px) :
  well_shaped im -> nth_error (data im) y = Some row ->
  List.length row = width im /\ (y < height im)%nat.
Proof.
  intros [Hh Hw] Hy. split.
  - rewrite Forall_forall in Hw. apply Hw. eapply nth_error_In; eassumption.
  - rewrite <- Hh. apply nth_error_Some. congruence.
Qed.

Lemma pad_bottom_shape (im : image px) (after : Z) :
  well_shaped im ->
  well_shaped (pad_bottom zero im after)
  /\ height (pad_bottom zero im after) = (height im + Z.to_nat after)%nat
  /\ width (pad_bottom zero im after) = width im.
Proof.
  intros [Hh Hw]. unfold well_shaped, pad_bottom. simpl.
  repeat split.
  - rewrite length_app, repeat_length. congruence.
  - apply Forall_app. split; [exact Hw |].
    apply Forall_forall. intros row Hrow.
    apply repeat_spec in Hrow. subst row. apply repeat_length.
Qed.

(** A padded image keeps its pixels and has [zero] below them. *)
Lemma pad_bottom_pixel (im : image px) (after : Z) (y x : nat) :
  well_shaped im ->
  pixel_at (pad_bottom zero im after) y x
  = if (y <? height im)%nat then pixel_at im y x
    else if ((y <? height im + Z.to_nat after)%nat && (x <? width im)%nat)%bool
         then Some zero else None.
Proof.
  intros [Hh Hw]. unfold pixel_at, pad_bottom. simpl.
  destruct (y <? height im)%nat eqn:E.
  - apply Nat.ltb_lt in E. rewrite nth_error_app1 by lia. reflexivity.
  - apply Nat.ltb_ge in E. rewrite nth_error_app2 by lia.
    rewrite nth_error_repeat_if, Hh.
    destruct (Nat.ltb_spec (y - height im) (Z.to_nat after));
      destruct (Nat.ltb_spec y (height im + Z.to_nat after));
      try lia; simpl; [| reflexivity].
    apply nth_error_repeat_if.
Qed.

Lemma zip_rows_length (a b : list (list px)) :
  List.length a = List.length b ->
  List.length (zip_rows a b) = List.length a.
Proof.
  revert b. induction a as [| ra a IH]; intros [| rb b] H; simpl in *;
    try discriminate; [reflexivity |].
  f_equal. apply IH. lia.
Qed.

Lemma zip_rows_nth (a b : list (list px)) (y : nat) :
  List.length a = List.length b ->
  nth_error (zip_rows a b) y
  = match nth_error a y, nth_error b y with
    | Some ra, Some rb => Some (ra ++ rb)
    | _, _ => None
    end.
Proof.
  revert b y. induction a as [| ra a IH]; intros [| rb b] y H; simpl in *;
    try discriminate.
  - now destruct y.
  - destruct y as [| y]; simpl; [reflexivity |]. apply IH. lia.
Qed.

Lemma zip_rows_widths (a b : list (list px)) (wa wb : nat) :
  Forall (fun row => List.length row = wa) a ->
  Forall (fun row => List.length row = wb) b ->
  Forall (fun row => List.length row = (wa + wb)%nat) (zip_rows a b).
Proof.
  intro Ha. revert b. induction Ha as [| ra a Hra _ IH]; intros b Hb; simpl.
  - constructor.
  - destruct Hb as [| rb b Hrb Hb]; constructor.
    + rewrite length_app. congruence.
    + apply IH. exact Hb.
Qed.

(** Two images of equal height, side by side. *)
Lemma concatenate_axis1_spec (a b : image px) :
  well_shaped a -> well_shaped b -> height a = height b ->
  exists c,
    concatenate_axis1 a b = Ok c
    /\ height c = height a /\ width c = (width a + width b)%nat
    /\ well_shaped c
    /\ forall y x,
        pixel_at c y x
        = if (x <? width a)%nat then pixel_at a y x
          else pixel_at b y (x - width a).
Proof.
  intros [Hha Hwa] [Hhb Hwb] Hh. unfold concatenate_axis1.
  rewrite <- Hh, Nat.eqb_refl. eexists. split; [reflexivity |]. simpl.
  assert (Hlen : List.length (data a) = List.length (data b)) by congruence.
  split; [reflexivity |]. split; [reflexivity |]. split; [split |]; simpl.
  - rewrite zip_rows_length by exact Hlen. congruence.
  - apply zip_rows_widths; assumption.
  - intros y x. unfold pixel_at. simpl. rewrite zip_rows_nth by exact Hlen.
    destruct (nth_error (data a) y) as [ra |] eqn:Ea;
      destruct (nth_error (data b) y) as [rb |] eqn:Eb.
    + assert (Hra : List.length ra = width a).
      { rewrite Forall_forall in Hwa. apply Hwa.
        eapply nth_error_In; eassumption. }
      destruct (Nat.ltb_spec x (width a)).
      * apply nth_error_app1. lia.
      * rewrite nth_error_app2 by lia. now rewrite Hra.
    + apply nth_error_None in Eb.
      assert (y < List.length (data a))%nat
        by (apply nth_error_Some; congruence).
      lia.
    + apply nth_error_None in Ea.
      assert (y < List.length (data b))%nat
        by (apply nth_error_Some; congruence).
      lia.
    + now destruct (x <? width a)%nat.
Qed.

(** C9: each image is padded at the bottom with [zero] rows up to the
    height [max H0 H1], its width and its own pixels unchanged, and the
    canvas is the two padded images side by side, [W0 + W1] wide. *)
Theorem canvas_padded_side_by_side (img0 img1 : image px) :
  well_shaped img0 -> well_shaped img1 ->
  exists img0' img1' img,
    padded zero img0 img1 = (img0', img1')
    /\ canvas zero img0 img1 = Ok img
    /\ height img0' = Nat.max (height img0) (height img1)
    /\ height img1' = Nat.max (height img0) (height img1)
    /\ width img0' = width img0
    /\ width img1' = width img1
    /\ (forall y x,
          pixel_at img0' y x
          = if (y <? height img0)%nat then pixel_at img0 y x
            else if ((y <? Nat.max (height img0) (height img1))%nat
                     && (x <? width img0)%nat)%bool
                 then Some zero else None)
    /\ (forall y x,
          pixel_at img1' y x
          = if (y <? height img1)%nat then pixel_at img1 y x
            else if ((y <? Nat.max (height img0) (height img1))%nat
                     && (x <? width img1)%nat)%bool
                 then Some zero else None)
    /\ height img = Nat.max (height img0) (height img1)
    /\ width img = (width img0 + width img1)%nat
    /\ well_shaped img
    /\ (forall y x,
          pixel_at img y x
          = if (x <? width img0)%nat then pixel_at img0' y x
            else pixel_at img1' y (x - width img0)).
Proof.
  intros Hs0 Hs1.
  set (a0 := Z.max (Z.of_nat (height img1) - Z.of_nat (height img0)) 0).
  set (a1 := Z.max (Z.of_nat (height img0) - Z.of_nat (height img1)) 0).
  destruct (pad_bottom_shape a0 Hs0) as (Hp0 & Hh0 & Hw0).
  destruct (pad_bottom_shape a1 Hs1) as (Hp1 & Hh1 & Hw1).
  assert (E0 : (height img0 + Z.to_nat a0)%nat
               = Nat.max (height img0) (height img1)) by (unfold a0; lia).
  assert (E1 : (height img1 + Z.to_nat a1)%nat
               = Nat.max (height img0) (height img1)) by (unfold a1; lia).
  destruct (@concatenate_axis1_spec (pad_bottom zero img0 a0)
                                    (pad_bottom zero img1 a1) Hp0 Hp1)
    as (img & Hc & Hh & Hw & Hs & Hpx); [congruence |].
  exists (pad_bottom zero img0 a0), (pad_bottom zero img1 a1), img.
  split; [reflexivity |]. split; [exact Hc |].
  split; [congruence |]. split; [congruence |].
  split; [exact Hw0 |]. split; [exact Hw1 |].
  split; [intros y x; rewrite (pad_bottom_pixel a0 y x Hs0), E0; reflexivity |].
  split; [intros y x; rewrite (pad_bottom_pixel a1 y x Hs1), E1; reflexivity |].
  split; [congruence |]. split; [congruence |]. split; [exact Hs |].
  intros y x. rewrite Hpx, Hw0. reflexivity.
Qed.

End CanvasClaims.

Lemma canvas_padded_side_by_side_witness :
  exists img,
    Viz.canvas 0%Z Samples.wide Samples.tall = Ok img
    /\ Viz.height img = 2%nat /\ Viz.width img = 3%nat.
Proof.
  destruct (@canvas_padded_side_by_side Z 0%Z Samples.wide Samples.tall)
    as (img0' & img1' & img & _ & Hc & _ & _ & _ & _ & _ & _ & Hh & Hw & _).
  - split; [reflexivity | repeat constructor].
  - split; [reflexivity | repeat constructor].
  - exists img. auto.
Defined.

(** ** The sample inputs, run *)

Section Runs.

Import Numpy Matching Viz Samples.

Example find_reciprocal_matches_clouds :
  find_reciprocal_matches cloud0 cloud1
  = ([true; true; false], [1; 0; 1]%Z, 2%Z)
  /\ index_pairs (find_reciprocal_matches cloud0 cloud1) = [(1, 0); (0, 1)]%Z
  /\ accepted_pairs cloud0 cloud1 = [(0, 1); (1, 0)]%nat.
Proof. vm_compute. repeat split. Qed.

Example match_and_sample_seen :
  match_and_sample seen0 seen1
  = Ok ([(1, 0); (1, 0); (1, 0); (1, 0); (1, 0);
         (0, 0); (0, 0); (0, 0); (0, 0); (0, 0)]%Z,
        [(0, 0); (0, 0); (0, 0); (0, 0); (0, 0);
         (1, 0); (1, 0); (1, 0); (1, 0); (1, 0)]%Z).
Proof. vm_compute. reflexivity. Qed.

Example canvas_wide_tall :
  canvas 0%Z wide tall
  = Ok {| height := 2; width := 3; data := [[1; 2; 3]; [0; 0; 4]]%Z |}.
Proof. vm_compute. reflexivity. Qed.

End Runs.

(** * Further properties of the script *)

(** ** Image discovery, once more *)

Section DiscoveryMore.

Import Discovery.
Local Open Scope string_scope.

Lemma app_string_assoc (a b c : string) : (a ++ b) ++ c = a ++ (b ++ c).
Proof. induction a as [| x a IH]; simpl; [reflexivity | now rewrite IH]. Qed.

(** A joined path ends as its last component does. *)
Lemma join_endswith (a b suf : string) :
  endswith b suf = true -> endswith (join a b) suf = true.
Proof.
  intro H. unfold join.
  destruct (startswith b "/"); [exact H |].
  apply endswith_spec in H as [stem ->].
  apply endswith_spec.
  destruct (String.eqb a "" || endswith a "/")%bool.
  - exists (a ++ stem). apply eq_sym, app_string_assoc.
  - exists (a ++ "/" ++ stem). now rewrite !app_string_assoc.
Qed.

(** X4: every path of the list ends in [.png], in this very spelling,
    whatever the root and the names in the tree are. *)
Theorem get_image_list_all_png (path : string) (t : tree) :
  Forall (fun p => endswith p ".png" = true) (get_image_list path t).
Proof.
  apply Forall_forall. intros p Hp.
  apply in_get_image_list in Hp as (r & f & _ & Hpng & ->).
  now apply join_endswith.
Qed.

Lemma flat_map_flat_map (X Y Z' : Type) (f : X -> list Y) (g : Y -> list Z')
      (l : list X) :
  flat_map g (flat_map f l) = flat_map (fun x => flat_map g (f x)) l.
Proof.
  induction l as [| x l IH]; simpl; [reflexivity |].
  now rewrite flat_map_app, IH.
Qed.

Lemma get_image_list_node (path : string)
      (dirs : list (string * bool * tree)) (files : list string) :
  get_image_list path (Node dirs files)
  = (map (join path) (filter (fun file => endswith file ".png") files)
     ++ flat_map (fun d =>
                    match d with
                    | (name, islink, sub) =>
                        if islink : bool then []
                        else get_image_list (join path name) sub
                    end) dirs)%list.
Proof.
  rewrite get_image_list_flat. simpl. f_equal.
  rewrite flat_map_flat_map. apply flat_map_ext.
  intros [[name islink] sub]. destruct islink; [reflexivity |].
  symmetry. apply get_image_list_flat.
Qed.

(** X5: the list of a directory is the list of its own entries that end
    in [.png], then the lists of its sub-directories in turn, each
    walked from the joined path; a sub-directory that is a symbolic link
    adds nothing. *)
Theorem get_image_list_unfold (path : string)
        (dirs : list (string * bool * tree)) (files : list string) :
  get_image_list path (Node dirs files)
  = (map (join path) (filter (fun file => endswith file ".png") files)
     ++ flat_map (fun d =>
                    match d with
                    | (name, islink, sub) =>
                        if islink : bool then []
                        else get_image_list (join path name) sub
                    end) dirs)%list.
Proof. apply get_image_list_node. Qed.

End DiscoveryMore.

(** ** The sampler with enough matches *)

Section SamplerMore.

Import Numpy Viz Pipeline.

(** As many samples as matches: every match is sampled once, in order. *)
Lemma match_idx_to_viz_all (k : nat) :
  match_idx_to_viz (Z.of_nat k) k = map Z.of_nat (seq 0 k).
Proof.
  destruct k as [| [| div']]; [reflexivity | reflexivity |].
  set (div := S div'). assert (Hd : (0 < div)%nat) by (unfold div; lia).
  apply nth_error_ext. intro n.
  rewrite (nth_error_map Z.of_nat), nth_error_seq.
  destruct (nth_error (match_idx_to_viz (Z.of_nat (S div)) (S div)) n)
    as [z |] eqn:E.
  - apply (@idx_sample _ div Hd) in E as [Hn ->].
    replace (n <? S div)%nat with true by (symmetry; apply Nat.ltb_lt; lia).
    simpl option_map. f_equal.
    rewrite <- (round_int_inject_Z (Z.of_nat n)) at 2.
    apply round_int_comp.
    replace (Z.of_nat (S div) - 1)%Z with (Z.of_nat div) by lia.
    field. unfold Qeq. simpl. lia.
  - apply nth_error_None in E. rewrite match_idx_to_viz_length in E.
    replace (n <? S div)%nat with false by (symmetry; apply Nat.ltb_ge; lia).
    reflexivity.
Qed.

(** Arguments more than one apart round to different integers. *)
Lemma round_int_gap (x y : Q) : x + 1 < y -> (round_int x < round_int y)%Z.
Proof.
  intro H. pose proof (round_int_nearest x) as [_ Hx].
  pose proof (round_int_nearest y) as [Hy _].
  rewrite Zlt_Qlt. qlra.
Qed.

(** X6: with at least as many matches as samples the sampled indices
    step up every time, so no match is displayed twice; with exactly as
    many they are [0 .. k - 1]. *)
Theorem sampler_enough_matches (count : Z) (k : nat) :
  (Z.of_nat k <= count)%Z ->
  increasing (match_idx_to_viz count k)
  /\ NoDup (match_idx_to_viz count k)
  /\ (count = Z.of_nat k ->
      match_idx_to_viz count k = map Z.of_nat (seq 0 k)).
Proof.
  intro Hk.
  assert (Hinc : increasing (match_idx_to_viz count k)).
  { intros i j a b Hij Ha Hb.
    assert (Hj : (j < k)%nat).
    { rewrite <- (match_idx_to_viz_length count k).
      apply nth_error_Some. congruence. }
    destruct k as [| div]; [lia |].
    assert (Hd : (0 < div)%nat) by lia.
    apply (@idx_sample _ div Hd) in Ha as [Hi ->].
    apply (@idx_sample _ div Hd) in Hb as [_ ->].
    destruct (Z.eq_dec (count - 1) (Z.of_nat div)) as [E | NE].
    - rewrite E.
      assert (Hid : forall n : nat,
                 inject_Z (Z.of_nat n) * inject_Z (Z.of_nat div)
                 / inject_Z (Z.of_nat div) == inject_Z (Z.of_nat n))
        by (intro n; field; unfold Qeq; simpl; lia).
      rewrite (round_int_comp (Hid i)), (round_int_comp (Hid j)).
      rewrite !round_int_inject_Z. lia.
    - apply round_int_gap.
      pose proof (div_pos_Q Hd) as HD.
      assert (HS : inject_Z (Z.of_nat div) + 1 <= inject_Z (count - 1)).
      { rewrite <- inject_Z_succ, <- Zle_Qle. lia. }
      assert (HJ : inject_Z (Z.of_nat i) + 1 <= inject_Z (Z.of_nat j)).
      { rewrite <- inject_Z_succ, <- Zle_Qle. lia. }
      assert (HI : 0 <= inject_Z (Z.of_nat i)).
      { change 0 with (inject_Z 0). rewrite <- Zle_Qle. lia. }
      apply Qlt_shift_div_l; [exact HD |].
      assert (Hmul : (inject_Z (Z.of_nat i) * inject_Z (count - 1)
                      / inject_Z (Z.of_nat div) + 1)
                     * inject_Z (Z.of_nat div)
                     == inject_Z (Z.of_nat i) * inject_Z (count - 1)
                        + inject_Z (Z.of_nat div)).
      { field. intro E0. rewrite E0 in HD. discriminate. }
      rewrite Hmul. hide_inject_Z. nra. }
  split; [exact Hinc | split].
  - apply NoDup_nth_error. intros i j Hi E.
    destruct (nth_error (match_idx_to_viz count k) i) as [a |] eqn:Ea;
      [| apply nth_error_None in Ea; lia].
    destruct (Nat.lt_trichotomy i j) as [Hlt | [Heq | Hgt]];
      [exfalso | exact Heq | exfalso].
    + pose proof (Hinc i j a a Hlt Ea (eq_sym E)). lia.
    + pose proof (Hinc j i a a Hgt (eq_sym E) Ea). lia.
  - intros ->. apply match_idx_to_viz_all.
Qed.

Lemma sampler_enough_matches_witness :
  increasing (match_idx_to_viz 100 10)
  /\ NoDup (match_idx_to_viz 100 10)
  /\ (100%Z = Z.of_nat 10 ->
      match_idx_to_viz 100 10 = map Z.of_nat (seq 0 10)).
Proof. apply (@sampler_enough_matches 100 10). simpl. lia. Defined.

End SamplerMore.

(** ** The canvas, once more *)

Section CanvasMore.

Import Viz.

Variable px : Type.
Variable zero : px.

Lemma pad_bottom_none (im : image px) : pad_bottom zero im 0 = im.
Proof.
  destruct im as [h w d]. unfold pad_bottom. simpl.
  now rewrite Nat.add_0_r, app_nil_r.
Qed.

(** X8: padding leaves the taller image as it is (both, when they are
    equally tall), and the concatenation of the padded pair never raises,
    whatever the two heights are. *)
Theorem padded_keeps_taller (img0 img1 : image px) :
  ((height img1 <= height img0)%nat -> fst (padded zero img0 img1) = img0)
  /\ ((height img0 <= height img1)%nat -> snd (padded zero img0 img1) = img1)
  /\ exists img, canvas zero img0 img1 = Ok img.
Proof.
  unfold canvas, padded. cbn [fst snd]. split; [| split].
  - intro H.
    replace (Z.max (Z.of_nat (height img1) - Z.of_nat (height img0)) 0)
      with 0%Z by lia.
    apply pad_bottom_none.
  - intro H.
    replace (Z.max (Z.of_nat (height img0) - Z.of_nat (height img1)) 0)
      with 0%Z by lia.
    apply pad_bottom_none.
  - unfold concatenate_axis1. cbn [height pad_bottom].
    replace (height img0
             + Z.to_nat (Z.max (Z.of_nat (height img1)
                                - Z.of_nat (height img0)) 0))%nat
      with (height img1
            + Z.to_nat (Z.max (Z.of_nat (height img0)
                               - Z.of_nat (height img1)) 0))%nat by lia.
    rewrite Nat.eqb_refl. eauto.
Qed.

End CanvasMore.

(** ** Lines 88-113 around any matcher *)

Section Binds.

Variables X Y : Type.

Lemma bind_ok (m : result X) (k : X -> result Y) (r : Y) :
  bind m k = Ok r -> exists a, m = Ok a /\ k a = Ok r.
Proof. destruct m as [a | e]; simpl; [eauto | discriminate]. Qed.

Lemma bind_raise (m : result X) (k : X -> result Y) (e : exn) :
  bind m k = Raise e ->
  m = Raise e \/ exists a, m = Ok a /\ k a = Raise e.
Proof.
  destruct m as [a | e']; simpl; intro H.
  - right. exists a. split; [reflexivity | exact H].
  - left. injection H as ->. reflexivity.
Qed.

Lemma Forall2_nth_error_r (R : X -> Y -> Prop) (l : list X) (l' : list Y)
      (n : nat) (y : Y) :
  Forall2 R l l' -> nth_error l' n = Some y ->
  exists x, nth_error l n = Some x /\ R x y.
Proof.
  intro H. revert n. induction H as [| x y' l l' Hxy _ IH]; intros [| n] Hn;
    simpl in *; try discriminate.
  - injection Hn as <-. eauto.
  - apply IH. exact Hn.
Qed.

End Binds.

Section Access.

Import Numpy.

Variable X : Type.

Lemma getitem_raise (a : list X) (i : Z) (e : exn) :
  getitem a i = Raise e -> e = IndexError.
Proof.
  unfold getitem.
  destruct ((0 <=? (if (i <? 0)%Z then (i + Z.of_nat (List.length a))%Z else i))%Z
            && ((if (i <? 0)%Z then (i + Z.of_nat (List.length a))%Z else i)
                <? Z.of_nat (List.length a))%Z)%bool; [| congruence].
  destruct (nth_error a _); congruence.
Qed.

Lemma take_raise (a : list X) (idx : list Z) (e : exn) :
  take a idx = Raise e -> e = IndexError.
Proof.
  unfold take. induction idx as [| i idx IH]; simpl; [discriminate |].
  destruct (getitem a i) as [x | e'] eqn:E; simpl.
  - destruct (mapM (getitem a) idx) as [v | e'']; simpl; [discriminate |].
    intros [= <-]. now apply IH.
  - intros [= <-]. eapply getitem_raise; eassumption.
Qed.

(** What [a[i]] returns is a row of [a], at the position [i] denotes. *)
Lemma getitem_ok (a : list X) (i : Z) (x : X) :
  getitem a i = Ok x ->
  Pipeline.valid_index (List.length a) i
  /\ nth_error a (Z.to_nat (if (i <? 0)%Z
                            then (i + Z.of_nat (List.length a))%Z else i))
     = Some x.
Proof.
  unfold getitem, Pipeline.valid_index.
  set (j := if (i <? 0)%Z then (i + Z.of_nat (List.length a))%Z else i).
  destruct (Z.leb_spec 0 j); [| discriminate].
  destruct (Z.ltb_spec j (Z.of_nat (List.length a))); [| discriminate].
  simpl. destruct (nth_error a (Z.to_nat j)) as [y |]; [| discriminate].
  intros [= <-]. split; [| reflexivity].
  unfold j in *. destruct (Z.ltb_spec i 0); lia.
Qed.

Lemma getitem_valid (a : list X) (i : Z) :
  Pipeline.valid_index (List.length a) i -> exists x, getitem a i = Ok x.
Proof.
  unfold getitem, Pipeline.valid_index. intro H.
  set (j := if (i <? 0)%Z then (i + Z.of_nat (List.length a))%Z else i).
  assert (Hj : (0 <= j < Z.of_nat (List.length a))%Z)
    by (unfold j; destruct (Z.ltb_spec i 0); lia).
  destruct (Z.leb_spec 0 j); [| lia].
  destruct (Z.ltb_spec j (Z.of_nat (List.length a))); [| lia].
  simpl. destruct (nth_error a (Z.to_nat j)) as [y |] eqn:E; [eauto |].
  apply nth_error_None in E. lia.
Qed.

Lemma take_valid (a : list X) (idx : list Z) :
  Forall (Pipeline.valid_index (List.length a)) idx ->
  exists v, take a idx = Ok v /\ List.length v = List.length idx.
Proof.
  unfold take. induction 1 as [| i idx Hi _ IH]; simpl.
  - exists []. split; reflexivity.
  - destruct (getitem_valid a Hi) as [x ->].
    destruct IH as (v & -> & Hlen). simpl.
    exists (x :: v). split; [reflexivity | simpl; congruence].
Qed.

Lemma take_In (a : list X) (idx : list Z) (v : list X) (x : X) :
  take a idx = Ok v -> In x v -> In x a.
Proof.
  intros H Hx. apply take_content in H.
  apply In_nth_error in Hx as [n Hn].
  destruct (Forall2_nth_error_r n H Hn) as (i & _ & Hi).
  apply getitem_ok in Hi as [_ Hi]. eapply nth_error_In; eassumption.
Qed.

(** The same index into two arrays of one length reads the same
    position of both. *)
Lemma getitem_same_row (Y : Type) (a : list X) (b : list Y) (i : Z)
      (x : X) (y : Y) :
  List.length a = List.length b ->
  getitem a i = Ok x -> getitem b i = Ok y ->
  exists n, nth_error a n = Some x /\ nth_error b n = Some y.
Proof.
  intros L Ha Hb. apply getitem_ok in Ha as [_ Ha].
  unfold getitem in Hb. rewrite <- L in Hb.
  set (j := if (i <? 0)%Z then (i + Z.of_nat (List.length a))%Z else i) in *.
  destruct ((0 <=? j)%Z && (j <? Z.of_nat (List.length a))%Z)%bool;
    [| discriminate].
  destruct (nth_error b (Z.to_nat j)) as [y' |] eqn:E; [| discriminate].
  injection Hb as <-. eauto.
Qed.

End Access.

Section AnyMatcher.

Import Numpy Matching Viz Pipeline.

Variable pixel : Type.
Variable matcher : list point3 -> list point3 -> list bool * list Z * Z.

(** The run written with the matcher as a parameter is the run of the
    script when the parameter is the matcher itself. *)
Lemma match_and_sample_with_matcher (v0 v1 : view pixel) :
  match_and_sample v0 v1
  = match_and_sample_with find_reciprocal_matches v0 v1.
Proof. reflexivity. Qed.

(** A run that raises nothing, statement by statement. *)
Lemma match_and_sample_with_steps (v0 v1 : view pixel)
      (viz0 viz1 : list pixel) :
  match_and_sample_with matcher v0 v1 = Ok (viz0, viz1) ->
  exists mask nn num nn_px,
    matcher (compress (pts3d v0) (conf v0)) (compress (pts3d v1) (conf v1))
    = (mask, nn, num)
    /\ take (compress (xy_grid v0) (conf v0)) nn = Ok nn_px
    /\ List.length (compress nn_px mask)
       = List.length (compress (compress (xy_grid v1) (conf v1)) mask)
    /\ take (compress nn_px mask) (match_idx_to_viz num n_viz) = Ok viz0
    /\ take (compress (compress (xy_grid v1) (conf v1)) mask)
            (match_idx_to_viz num n_viz) = Ok viz1.
Proof.
  unfold match_and_sample_with. intro H.
  apply bind_ok in H as (pts2d_0 & G0 & H).
  apply bind_ok in H as (P1 & S0 & H).
  apply bind_ok in H as (pts2d_1 & G1 & H).
  apply bind_ok in H as (P2 & S1 & H).
  apply bind_ok in H as ([[m0 m1] num] & M & H).
  apply mask_select_ok in G0 as [_ ->], S0 as [_ ->].
  apply mask_select_ok in G1 as [_ ->], S1 as [_ ->].
  unfold matches_with in M.
  destruct (matcher (compress (pts3d v0) (conf v0))
                    (compress (pts3d v1) (conf v1)))
    as [[mask nn] num'] eqn:E.
  apply bind_ok in M as (m1' & M1 & M).
  apply bind_ok in M as (nn_px & T & M).
  apply bind_ok in M as (m0' & M0 & M).
  injection M as -> -> ->.
  pose proof (@mask_select_same_length _ _ _ _ _ _ _ M0 M1) as Hlen.
  apply mask_select_ok in M1 as [_ ->], M0 as [_ ->].
  unfold viz_matches in H.
  apply bind_ok in H as (w0 & W0 & H).
  apply bind_ok in H as (w1 & W1 & H).
  injection H as -> ->.
  exists mask, nn, num, nn_px. auto 8.
Qed.

(** X9: every pixel handed on for display is a pixel that the
    confidence mask of its own view keeps, whatever the matcher
    returned. *)
Theorem displayed_pixels_are_trusted (v0 v1 : view pixel)
        (viz_matches_im0 viz_matches_im1 : list pixel) :
  match_and_sample_with matcher v0 v1
  = Ok (viz_matches_im0, viz_matches_im1) ->
  Forall (trusted v0) viz_matches_im0 /\ Forall (trusted v1) viz_matches_im1.
Proof.
  intro H. apply match_and_sample_with_steps in H
    as (mask & nn & num & nn_px & _ & T & _ & W0 & W1).
  split; apply Forall_forall; intros x Hx.
  - apply (@take_In _ _ _ _ _ W0) in Hx. apply compress_In in Hx as (b & Hb & _).
    apply nth_error_In in Hb. apply (@take_In _ _ _ _ _ T) in Hb.
    apply compress_In in Hb. exact Hb.
  - apply (@take_In _ _ _ _ _ W1) in Hx. apply compress_In in Hx as (b & Hb & _).
    apply nth_error_In in Hb. apply compress_In in Hb. exact Hb.
Qed.

(** X10: the two arrays handed on for display stay paired row by row:
    row [i] of the first is the pixel of the neighbour [nn2_in_P1[b]] in
    the first view and row [i] of the second the pixel of [b] in the
    second view, for one and the same flagged point [b]. *)
Theorem displayed_rows_are_pairs (v0 v1 : view pixel)
        (viz_matches_im0 viz_matches_im1 : list pixel) :
  match_and_sample_with matcher v0 v1
  = Ok (viz_matches_im0, viz_matches_im1) ->
  forall i x0 x1,
    nth_error viz_matches_im0 i = Some x0 ->
    nth_error viz_matches_im1 i = Some x1 ->
    exists b a,
      nth_error (fst (fst (matcher (compress (pts3d v0) (conf v0))
                                   (compress (pts3d v1) (conf v1))))) b
      = Some true
      /\ nth_error (snd (fst (matcher (compress (pts3d v0) (conf v0))
                                      (compress (pts3d v1) (conf v1))))) b
         = Some a
      /\ getitem (compress (xy_grid v0) (conf v0)) a = Ok x0
      /\ nth_error (compress (xy_grid v1) (conf v1)) b = Some x1.
Proof.
  intros H i x0 x1 H0 H1. apply match_and_sample_with_steps in H
    as (mask & nn & num & nn_px & -> & T & Hlen & W0 & W1).
  cbn [fst snd].
  apply take_content in W0, W1, T.
  destruct (@Forall2_nth_error_r _ _ _ _ _ i _ W0 H0) as (j & Hj & G0).
  destruct (@Forall2_nth_error_r _ _ _ _ _ i _ W1 H1) as (j' & Hj' & G1).
  assert (j' = j) by congruence. subst j'.
  destruct (@getitem_same_row _ _ _ _ _ _ _ Hlen G0 G1) as (n & N0 & N1).
  assert (Hn : nth_error (compress (combine nn_px
                                            (compress (xy_grid v1) (conf v1)))
                                   mask) n = Some (x0, x1))
    by (rewrite compress_combine; now apply nth_error_combine).
  apply nth_error_In, compress_In in Hn as (b & Hb & Hm).
  apply nth_error_combine in Hb as [B0 B1].
  destruct (@Forall2_nth_error_r _ _ _ _ _ b _ T B0) as (a & Ha & Ga).
  exists b, a. auto.
Qed.

End AnyMatcher.

Section AnyMatcherRuns.

Import Numpy Matching Viz Pipeline.

Variable pixel : Type.
Variable matcher : list point3 -> list point3 -> list bool * list Z * Z.

(** Lines 88-113 raise nothing but [IndexError]. *)
Lemma match_and_sample_with_raise (v0 v1 : view pixel) (e : exn) :
  match_and_sample_with matcher v0 v1 = Raise e -> e = IndexError.
Proof.
  unfold match_and_sample_with. intro H.
  apply bind_raise in H as [H | (pts2d_0 & _ & H)];
    [eapply mask_select_raise; eassumption |].
  apply bind_raise in H as [H | (P1 & _ & H)];
    [eapply mask_select_raise; eassumption |].
  apply bind_raise in H as [H | (pts2d_1 & _ & H)];
    [eapply mask_select_raise; eassumption |].
  apply bind_raise in H as [H | (P2 & _ & H)];
    [eapply mask_select_raise; eassumption |].
  apply bind_raise in H as [H | ([[m0 m1] num] & _ & H)].
  - unfold matches_with in H. destruct (matcher P1 P2) as [[mask nn] num].
    apply bind_raise in H as [H | (m1 & _ & H)];
      [eapply mask_select_raise; eassumption |].
    apply bind_raise in H as [H | (nn_px & _ & H)];
      [eapply take_raise; eassumption |].
    apply bind_raise in H as [H | (m0 & _ & H)];
      [eapply mask_select_raise; eassumption | discriminate].
  - unfold viz_matches in H.
    apply bind_raise in H as [H | (w0 & _ & H)];
      [eapply take_raise; eassumption |].
    apply bind_raise in H as [H | (w1 & _ & H)];
      [eapply take_raise; eassumption | discriminate].
Qed.

Lemma compress_no_flag (X : Type) (l : list X) (mask : list bool) :
  count_true mask = 0%Z -> compress l mask = [].
Proof.
  unfold count_true. revert mask.
  induction l as [| x l IH]; intros [| m mask] H; try reflexivity.
  destruct m; simpl in *; [lia | now apply IH].
Qed.

(** X11: when the matcher flags no point of the second view and reports
    no match, the run ends in [IndexError], whatever else the matcher
    returns and whatever the views are. *)
Theorem no_flag_raises (v0 v1 : view pixel) :
  count_true (fst (fst (matcher (compress (pts3d v0) (conf v0))
                                (compress (pts3d v1) (conf v1))))) = 0%Z ->
  snd (matcher (compress (pts3d v0) (conf v0))
               (compress (pts3d v1) (conf v1))) = 0%Z ->
  match_and_sample_with matcher v0 v1 = Raise IndexError.
Proof.
  intros Hcount Hnum.
  destruct (match_and_sample_with matcher v0 v1) as [[viz0 viz1] | e] eqn:E;
    [exfalso | now rewrite (match_and_sample_with_raise _ _ E)].
  apply match_and_sample_with_steps in E
    as (mask & nn & num & nn_px & Em & _ & _ & W0 & _).
  rewrite Em in Hcount, Hnum. cbn [fst snd] in Hcount, Hnum. subst num.
  rewrite (compress_no_flag nn_px mask Hcount) in W0.
  change (match_idx_to_viz 0 n_viz)
    with [0; 0; 0; 0; 0; -1; -1; -1; -1; -1]%Z in W0.
  rewrite take_empty in W0. discriminate.
Qed.

(** X12: when the grids of each view have one size and the matcher
    returns a flag and a valid neighbour index per point of the second
    view and counts its flags, at least one, the run raises nothing and
    hands on [n_viz] rows for each view. *)
Theorem shaped_matcher_runs (v0 v1 : view pixel) :
  one_size v0 -> one_size v1 ->
  keeps_shape matcher (compress (pts3d v0) (conf v0))
              (compress (pts3d v1) (conf v1)) ->
  (1 <= snd (matcher (compress (pts3d v0) (conf v0))
                     (compress (pts3d v1) (conf v1))))%Z ->
  exists viz_matches_im0 viz_matches_im1,
    match_and_sample_with matcher v0 v1
    = Ok (viz_matches_im0, viz_matches_im1)
    /\ List.length viz_matches_im0 = n_viz
    /\ List.length viz_matches_im1 = n_viz.
Proof.
  intros [G0 S0] [G1 S1] Hshape Hnum.
  unfold match_and_sample_with, matches_with, keeps_shape in *.
  rewrite !(@mask_select_fits _ (xy_grid v0)), !(@mask_select_fits _ (pts3d v0)),
    !(@mask_select_fits _ (xy_grid v1)), !(@mask_select_fits _ (pts3d v1))
    by congruence.
  cbn [bind].
  destruct (matcher (compress (pts3d v0) (conf v0))
                    (compress (pts3d v1) (conf v1)))
    as [[mask nn] num].
  destruct Hshape as (Lm & Ln & Hnn & ->). cbn [snd] in Hnum.
  assert (LP1 : List.length (compress (xy_grid v0) (conf v0))
                = List.length (compress (pts3d v0) (conf v0)))
    by (apply Nat2Z.inj; rewrite !compress_length; congruence).
  assert (LP2 : List.length (compress (xy_grid v1) (conf v1))
                = List.length (compress (pts3d v1) (conf v1)))
    by (apply Nat2Z.inj; rewrite !compress_length; congruence).
  rewrite (@mask_select_fits _ (compress (xy_grid v1) (conf v1)))
    by congruence.
  cbn [bind].
  destruct (@take_valid pixel (compress (xy_grid v0) (conf v0)) nn)
    as (nn_px & -> & Lpx); [now rewrite LP1 |].
  cbn [bind]. rewrite (@mask_select_fits _ nn_px) by congruence.
  cbn [bind].
  destruct (@viz_matches_in_range pixel (compress nn_px mask)
              (compress (compress (xy_grid v1) (conf v1)) mask)
              (count_true mask) (match_idx_to_viz (count_true mask) n_viz))
    as (w0 & w1 & E & K0 & K1).
  - apply compress_length. congruence.
  - apply compress_length. congruence.
  - apply (@idx_in_range _ 9); [lia | exact Hnum].
  - rewrite match_idx_to_viz_length in K0, K1. eauto.
Qed.

End AnyMatcherRuns.

(** ** The canvas and the lines over it *)

Section Monadic.

Variables X Y : Type.
Variable f : X -> result Y.

Lemma mapM_Forall2 (l : list X) (v : list Y) :
  mapM f l = Ok v -> Forall2 (fun x y => f x = Ok y) l v.
Proof.
  revert v. induction l as [| x l IH]; intros v H; simpl in H.
  - injection H as <-. constructor.
  - apply bind_ok in H as (y & Hy & H). apply bind_ok in H as (ys & Hys & H).
    injection H as <-. constructor; auto.
Qed.

Lemma mapM_all_ok (l : list X) :
  (forall x, In x l -> exists y, f x = Ok y) -> exists v, mapM f l = Ok v.
Proof.
  induction l as [| x l IH]; intro H; simpl; [eauto |].
  destruct (H x (or_introl eq_refl)) as [y ->].
  destruct IH as [v ->]; [intros; apply H; now right |].
  simpl. eauto.
Qed.

End Monadic.

Section Lines.

Import Numpy Viz Plot.

Variable px : Type.
Variable zero : px.

(** The canvas, pixel by pixel. *)
Lemma canvas_pixels (img0 img1 : image px) :
  well_shaped img0 -> well_shaped img1 ->
  exists img,
    canvas zero img0 img1 = Ok img
    /\ forall y x,
        pixel_at img y x
        = if (x <? width img0)%nat
          then pixel_at (fst (padded zero img0 img1)) y x
          else pixel_at (snd (padded zero img0 img1)) y (x - width img0).
Proof.
  intros Hs0 Hs1. unfold canvas, padded. cbn [fst snd].
  set (a0 := Z.max (Z.of_nat (height img1) - Z.of_nat (height img0)) 0).
  set (a1 := Z.max (Z.of_nat (height img0) - Z.of_nat (height img1)) 0).
  destruct (pad_bottom_shape zero a0 Hs0) as (Hp0 & Hh0 & Hw0).
  destruct (pad_bottom_shape zero a1 Hs1) as (Hp1 & Hh1 & Hw1).
  destruct (@concatenate_axis1_spec px (pad_bottom zero img0 a0)
                                    (pad_bottom zero img1 a1) Hp0 Hp1)
    as (img & Hc & _ & _ & _ & Hpx); [unfold a0, a1 in *; lia |].
  exists img. split; [exact Hc |].
  intros y x. rewrite Hpx, Hw0. reflexivity.
Qed.

(** A coordinate inside a well shaped image has a pixel. *)
Lemma inside_pixel (im : image px) (p : Z * Z) :
  well_shaped im -> inside im p ->
  exists c, pixel_at_Z im (fst p) (snd p) = Some c.
Proof.
  intros [Hh Hw] [[Hx0 Hx1] [Hy0 Hy1]]. unfold pixel_at_Z, pixel_at.
  replace (0 <=? fst p)%Z with true by (symmetry; apply Z.leb_le; lia).
  replace (0 <=? snd p)%Z with true by (symmetry; apply Z.leb_le; lia).
  simpl.
  destruct (nth_error (data im) (Z.to_nat (snd p))) as [row |] eqn:E;
    [| apply nth_error_None in E; lia].
  assert (Hrow : List.length row = width im).
  { rewrite Forall_forall in Hw. apply Hw. eapply nth_error_In; eassumption. }
  destruct (nth_error row (Z.to_nat (fst p))) as [c |] eqn:E';
    [eauto | apply nth_error_None in E'; lia].
Qed.

End Lines.

Section DrawnLines.

Import Numpy Viz Plot.

Variable px : Type.
Variable zero : px.

(** X13: with ten pixel pairs that lie inside their images, lines
    115-141 raise nothing and draw ten lines.  Line [i] runs from the
    [i]-th pixel of the first array to the [i]-th pixel of the second one
    shifted right by the width of the first image, and the canvas shows
    under its two ends what the two images show at the two pixels.  Its
    colour argument is [i / 9], between [0] and [1]. *)
Theorem lines_join_matched_pixels (img0 img1 : image px)
        (viz_matches_im0 viz_matches_im1 : list (Z * Z)) :
  well_shaped img0 -> well_shaped img1 ->
  List.length viz_matches_im0 = n_viz ->
  List.length viz_matches_im1 = n_viz ->
  Forall (inside img0) viz_matches_im0 ->
  Forall (inside img1) viz_matches_im1 ->
  exists img lines,
    show_matches zero img0 img1 viz_matches_im0 viz_matches_im1
    = Ok (img, lines)
    /\ List.length lines = n_viz
    /\ forall i seg,
        nth_error lines i = Some seg ->
        exists x0 y0 x1 y1 c0 c1,
          nth_error viz_matches_im0 i = Some (x0, y0)
          /\ nth_error viz_matches_im1 i = Some (x1, y1)
          /\ xdata seg = (x0, (x1 + Z.of_nat (width img0))%Z)
          /\ ydata seg = (y0, y1)
          /\ pixel_at_Z img0 x0 y0 = Some c0
          /\ pixel_at_Z img x0 y0 = Some c0
          /\ pixel_at_Z img1 x1 y1 = Some c1
          /\ pixel_at_Z img (x1 + Z.of_nat (width img0)) y1 = Some c1
          /\ color_at seg == inject_Z (Z.of_nat i) / 9
          /\ 0 <= color_at seg <= 1.
Proof.
  intros Hs0 Hs1 L0 L1 I0 I1.
  destruct (canvas_pixels zero Hs0 Hs1) as (img & Hc & Hpx).
  set (W0 := Z.of_nat (width img0)).
  assert (Hplot : exists lines, plot_matches W0 viz_matches_im0 viz_matches_im1
                                = Ok lines).
  { unfold plot_matches. apply mapM_all_ok. intros i Hi.
    apply in_seq in Hi as [_ Hi].
    destruct (@getitem_in_range _ viz_matches_im0 (Z.of_nat i))
      as ([x0 y0] & -> & _); [unfold in_range; lia |].
    destruct (@getitem_in_range _ viz_matches_im1 (Z.of_nat i))
      as ([x1 y1] & -> & _); [unfold in_range; lia |].
    simpl. eauto. }
  destruct Hplot as [lines Hlines].
  exists img, lines. unfold show_matches. rewrite Hc. cbn [bind].
  fold W0. rewrite Hlines. cbn [bind]. split; [reflexivity |].
  apply mapM_Forall2 in Hlines.
  split.
  - rewrite <- (Forall2_length Hlines). apply length_seq.
  - intros i seg Hseg.
    destruct (@Forall2_nth_error_r _ _ _ _ _ i _ Hlines Hseg) as (i' & Hi' & Hf).
    rewrite nth_error_seq in Hi'.
    destruct (Nat.ltb_spec i n_viz) as [Hi |]; [| discriminate].
    injection Hi' as <-. simpl Nat.add in Hf.
    apply bind_ok in Hf as ([x0 y0] & G0 & Hf).
    apply bind_ok in Hf as ([x1 y1] & G1 & Hf).
    injection Hf as <-. cbn [xdata ydata color_at].
    apply getitem_nonneg in G0, G1; try lia. rewrite Nat2Z.id in G0, G1.
    assert (In0 : inside img0 (x0, y0)).
    { rewrite Forall_forall in I0. apply I0.
      eapply nth_error_In; eassumption. }
    assert (In1 : inside img1 (x1, y1)).
    { rewrite Forall_forall in I1. apply I1.
      eapply nth_error_In; eassumption. }
    destruct (inside_pixel Hs0 In0) as [c0 Hc0].
    destruct (inside_pixel Hs1 In1) as [c1 Hc1].
    cbn [fst snd] in Hc0, Hc1.
    destruct In0 as [[Hx0 Hx0'] [Hy0 Hy0']].
    destruct In1 as [[Hx1 Hx1'] [Hy1 Hy1']]. cbn [fst snd] in *.
    exists x0, y0, x1, y1, c0, c1.
    split; [exact G0 |]. split; [exact G1 |].
    split; [reflexivity |]. split; [reflexivity |].
    split; [exact Hc0 |]. split; [| split; [exact Hc1 | split; [| split]]].
    + rewrite <- Hc0. unfold pixel_at_Z.
      destruct ((0 <=? x0)%Z && (0 <=? y0)%Z)%bool; [| reflexivity].
      rewrite Hpx.
      replace (Z.to_nat x0 <? width img0)%nat with true
        by (symmetry; apply Nat.ltb_lt; lia).
      unfold padded. cbn [fst]. rewrite (pad_bottom_pixel zero _ _ _ Hs0).
      replace (Z.to_nat y0 <? height img0)%nat with true
        by (symmetry; apply Nat.ltb_lt; lia).
      reflexivity.
    + rewrite <- Hc1. unfold pixel_at_Z, W0.
      replace (0 <=? x1 + Z.of_nat (width img0))%Z with true
        by (symmetry; apply Z.leb_le; lia).
      replace (0 <=? x1)%Z with true by (symmetry; apply Z.leb_le; lia).
      destruct (0 <=? y1)%Z; [| reflexivity]. simpl andb.
      rewrite Hpx.
      replace (Z.to_nat (x1 + Z.of_nat (width img0)) <? width img0)%nat
        with false by (symmetry; apply Nat.ltb_ge; lia).
      replace (Z.to_nat (x1 + Z.of_nat (width img0)) - width img0)%nat
        with (Z.to_nat x1) by lia.
      unfold padded. cbn [snd]. rewrite (pad_bottom_pixel zero _ _ _ Hs1).
      replace (Z.to_nat y1 <? height img1)%nat with true
        by (symmetry; apply Nat.ltb_lt; lia).
      reflexivity.
    + reflexivity.
    + assert (Hlo : 0 <= inject_Z (Z.of_nat i))
        by (change 0 with (inject_Z 0); rewrite <- Zle_Qle; lia).
      assert (Hhi : inject_Z (Z.of_nat i) <= 9).
      { change 9 with (inject_Z 9). rewrite <- Zle_Qle.
        unfold n_viz in Hi. lia. }
      change (inject_Z 9) with 9.
      split; [apply Qle_shift_div_l | apply Qle_shift_div_r];
        try reflexivity; qlra.
Qed.

End DrawnLines.

(** ** The further properties on the sample inputs *)

Example match_and_sample_with_first_point :
  Pipeline.match_and_sample_with MoreSamples.first_point_matcher
                                 Samples.seen0 Samples.seen1
  = Ok (repeat (0, 0)%Z 10,
        [(0, 0); (0, 0); (0, 0); (1, 0); (1, 0);
         (1, 0); (1, 0); (2, 0); (2, 0); (2, 0)]%Z).
Proof. vm_compute. reflexivity. Qed.

Lemma displayed_pixels_are_trusted_witness :
  Forall (Pipeline.trusted Samples.seen0) (repeat (0, 0)%Z 10)
  /\ Forall (Pipeline.trusted Samples.seen1)
            [(0, 0); (0, 0); (0, 0); (1, 0); (1, 0);
             (1, 0); (1, 0); (2, 0); (2, 0); (2, 0)]%Z.
Proof.
  apply (@displayed_pixels_are_trusted _ MoreSamples.first_point_matcher
           Samples.seen0 Samples.seen1).
  vm_compute. reflexivity.
Defined.

Lemma displayed_rows_are_pairs_witness :
  exists b a,
    nth_error (fst (fst (MoreSamples.first_point_matcher
                           (Numpy.compress (Matching.pts3d Samples.seen0)
                                           (Matching.conf Samples.seen0))
                           (Numpy.compress (Matching.pts3d Samples.seen1)
                                           (Matching.conf Samples.seen1))))) b
    = Some true
    /\ nth_error (snd (fst (MoreSamples.first_point_matcher
                              (Numpy.compress (Matching.pts3d Samples.seen0)
                                              (Matching.conf Samples.seen0))
                              (Numpy.compress (Matching.pts3d Samples.seen1)
                                              (Matching.conf Samples.seen1))))) b
       = Some a
    /\ Numpy.getitem (Numpy.compress (Matching.xy_grid Samples.seen0)
                                     (Matching.conf Samples.seen0)) a
       = Ok (0, 0)%Z
    /\ nth_error (Numpy.compress (Matching.xy_grid Samples.seen1)
                                 (Matching.conf Samples.seen1)) b
       = Some (1, 0)%Z.
Proof.
  apply (@displayed_rows_are_pairs _ MoreSamples.first_point_matcher
           Samples.seen0 Samples.seen1
           (repeat (0, 0)%Z 10)
           [(0, 0); (0, 0); (0, 0); (1, 0); (1, 0);
            (1, 0); (1, 0); (2, 0); (2, 0); (2, 0)]%Z
           match_and_sample_with_first_point 3%nat);
    reflexivity.
Defined.

Lemma shaped_matcher_runs_witness :
  exists viz_matches_im0 viz_matches_im1,
    Pipeline.match_and_sample_with MoreSamples.first_point_matcher
                                   Samples.seen0 Samples.seen1
    = Ok (viz_matches_im0, viz_matches_im1)
    /\ List.length viz_matches_im0 = Viz.n_viz
    /\ List.length viz_matches_im1 = Viz.n_viz.
Proof.
  apply (@shaped_matcher_runs _ MoreSamples.first_point_matcher
           Samples.seen0 Samples.seen1).
  - split; reflexivity.
  - split; reflexivity.
  - vm_compute. repeat split; repeat constructor; discriminate.
  - vm_compute. discriminate.
Defined.

Lemma no_flag_raises_witness :
  Pipeline.match_and_sample_with MoreSamples.no_flag_matcher
                                 Samples.seen0 Samples.seen1
  = Raise IndexError.
Proof.
  apply (@no_flag_raises _ MoreSamples.no_flag_matcher
           Samples.seen0 Samples.seen1); reflexivity.
Defined.

Lemma lines_join_matched_pixels_witness :
  exists img lines,
    Plot.show_matches 0%Z Samples.wide Samples.tall
                      MoreSamples.ten_left MoreSamples.ten_right
    = Ok (img, lines)
    /\ List.length lines = Viz.n_viz.
Proof.
  destruct (@lines_join_matched_pixels Z 0%Z Samples.wide Samples.tall
              MoreSamples.ten_left MoreSamples.ten_right)
    as (img & lines & H & L & _).
  - split; [reflexivity | repeat constructor].
  - split; [reflexivity | repeat constructor].
  - reflexivity.
  - reflexivity.
  - vm_compute. repeat constructor; discriminate.
  - vm_compute. repeat constructor; discriminate.
  - exists img, lines. auto.
Defined.

(** ** No path twice *)

Section Distinct.

Import Discovery Paths.
Local Open Scope string_scope.

Lemma join_slash (a n : string) :
  name_ok n = true -> join a n = slash a ++ n.
Proof.
  unfold name_ok, join, startswith, slash. intro H.
  apply andb_true_iff in H as [Hne Hsep].
  destruct n as [| c n]; [discriminate |].
  simpl in Hsep. apply negb_true_iff, orb_false_iff in Hsep as [Hc _].
  cbn [is_prefix]. rewrite Ascii.eqb_sym, Hc. cbn [andb].
  destruct (String.eqb a "" || endswith a "/")%bool; [reflexivity |].
  symmetry. apply app_string_assoc.
Qed.

Lemma has_sep_app (a b : string) :
  has_sep (a ++ b) = (has_sep a || has_sep b)%bool.
Proof.
  induction a as [| c a IH]; simpl; [reflexivity |].
  now rewrite IH, orb_assoc.
Qed.

Lemma app_string_inv_head (a x y : string) : a ++ x = a ++ y -> x = y.
Proof. induction a as [| c a IH]; simpl; [auto | intros [= H]; auto]. Qed.

Lemma last_of_app (x n stem : string) :
  x ++ n = stem ++ "/" -> n <> "" -> exists n', n = n' ++ "/".
Proof.
  revert stem. induction x as [| c x IH]; intros stem H Hn; simpl in H.
  - eauto.
  - destruct stem as [| c' stem]; simpl in H.
    + injection H as _ H. destruct x; simpl in H; [contradiction | discriminate].
    + injection H as _ H. eapply IH; eassumption.
Qed.

Lemma name_ok_parts (n : string) :
  name_ok n = true -> n <> "" /\ has_sep n = false.
Proof.
  unfold name_ok. rewrite andb_true_iff, !negb_true_iff. intros [H1 H2].
  split; [| exact H2]. intros ->. discriminate.
Qed.

Lemma no_sep_at_end (x n : string) :
  name_ok n = true -> endswith (x ++ n) "/" = false.
Proof.
  intro H. apply name_ok_parts in H as [Hn Hs].
  destruct (endswith (x ++ n) "/") eqn:E; [| reflexivity].
  apply endswith_spec in E as [stem E].
  destruct (@last_of_app _ _ _ E Hn) as [n' ->].
  rewrite has_sep_app in Hs. simpl in Hs. now rewrite orb_true_r in Hs.
Qed.

Lemma slash_join (a n : string) :
  name_ok n = true -> slash (join a n) = slash a ++ n ++ "/".
Proof.
  intro H. rewrite (@join_slash a n H). unfold slash at 1.
  rewrite (@no_sep_at_end (slash a) n H), orb_false_r.
  destruct (String.eqb_spec (slash a ++ n) "") as [E | _].
  - apply name_ok_parts in H as [Hn _].
    destruct (slash a); simpl in E; [contradiction | discriminate].
  - apply app_string_assoc.
Qed.

(** Every file of the walk sits below the root, separator included. *)
Lemma file_at_slash (top : string) (t : tree) (r f : string) :
  file_at top t r f -> names_ok t = true ->
  name_ok f = true /\ exists mid, slash r = slash top ++ mid.
Proof.
  induction 1 as [top dirs files f Hf
                 | top dirs files name sub r f Hd _ IH]; intro Hok.
  - split.
    + simpl in Hok. apply andb_true_iff in Hok as [Hok _].
      rewrite forallb_forall in Hok. now apply Hok.
    + exists "". clear. induction (slash top); simpl; congruence.
  - destruct (@names_ok_sub _ _ _ _ _ Hok Hd) as [Hname Hsub].
    destruct (IH Hsub) as [Hf [mid Hmid]]. split; [exact Hf |].
    exists (name ++ "/" ++ mid).
    rewrite Hmid, (@slash_join top name Hname), !app_string_assoc.
    reflexivity.
Qed.

Lemma in_get_image_list_slash (path : string) (t : tree) (p : string) :
  names_ok t = true -> In p (get_image_list path t) ->
  exists rest, p = slash path ++ rest.
Proof.
  intros Hok Hp. apply in_get_image_list in Hp as (r & f & Hat & _ & ->).
  destruct (@file_at_slash _ _ _ _ Hat Hok) as [Hf [mid Hmid]].
  exists (mid ++ f). now rewrite (@join_slash r f Hf), Hmid, app_string_assoc.
Qed.

(** Two names without a separator that are followed by one are equal
    when the whole strings are. *)
Lemma first_component (n1 n2 r1 r2 : string) :
  has_sep n1 = false -> has_sep n2 = false ->
  n1 ++ "/" ++ r1 = n2 ++ "/" ++ r2 -> n1 = n2.
Proof.
  revert n2. induction n1 as [| c n1 IH]; intros [| c' n2] H1 H2 E;
    simpl in *.
  - reflexivity.
  - injection E as <- _. apply orb_false_iff in H2 as [H2 _]. discriminate.
  - injection E as -> _. apply orb_false_iff in H1 as [H1 _]. discriminate.
  - injection E as <- E.
    apply orb_false_iff in H1 as [_ H1], H2 as [_ H2].
    f_equal. eapply IH; eassumption.
Qed.

Lemma NoDup_map_on (X Y : Type) (f : X -> Y) (l : list X) :
  NoDup l ->
  (forall x y, In x l -> In y l -> f x = f y -> x = y) ->
  NoDup (map f l).
Proof.
  induction 1 as [| x l Hx _ IH]; intro Hinj; simpl; constructor.
  - intro Hin. apply in_map_iff in Hin as (y & E & Hy).
    assert (y = x) by (apply Hinj; simpl; auto). subst y. contradiction.
  - apply IH. intros; apply Hinj; simpl; auto.
Qed.

End Distinct.

Section DistinctPaths.

Import Discovery Paths.
Local Open Scope string_scope.

(** A path found in a sub-directory starts with the directory's name and
    a separator, after what [join] puts before a name. *)
Lemma in_sub_list (path name : string) (sub : tree) (p : string) :
  name_ok name = true -> names_ok sub = true ->
  In p (get_image_list (join path name) sub) ->
  exists rest, p = slash path ++ name ++ "/" ++ rest.
Proof.
  intros Hname Hsub Hp.
  apply (@in_get_image_list_slash _ _ _ Hsub) in Hp as [rest ->].
  exists rest. now rewrite (@slash_join path name Hname), !app_string_assoc.
Qed.

(** X14: in a tree whose entry names are non-empty, free of separators
    and different within each directory, no path is listed twice. *)
Theorem get_image_list_NoDup (path : string) (t : tree) :
  names_ok t = true -> tidy t -> NoDup (get_image_list path t).
Proof.
  revert path. induction t as [dirs files IH] using tree_ind'.
  intros path Hok Htidy.
  inversion Htidy as [ds fs Hfiles Hdirs Hsubs]; subst ds fs.
  rewrite get_image_list_node.
  assert (Hfok : forall f, In f files -> name_ok f = true).
  { simpl in Hok. apply andb_true_iff in Hok as [Hf _].
    now rewrite forallb_forall in Hf. }
  apply NoDup_app.
  - apply NoDup_map_on; [now apply NoDup_filter |].
    intros f1 f2 H1 H2 E.
    apply filter_In in H1 as [H1 _], H2 as [H2 _].
    rewrite (@join_slash path f1 (Hfok _ H1)),
            (@join_slash path f2 (Hfok _ H2)) in E.
    eapply app_string_inv_head; eassumption.
  - assert (Hdok : forall name islink sub,
               In (name, islink, sub) dirs ->
               name_ok name = true /\ names_ok sub = true)
      by (intros; eapply names_ok_sub; eassumption).
    clear Hok Hfok Hfiles Htidy.
    induction dirs as [| [[name islink] sub] dirs IHdirs]; simpl;
      [constructor |].
    inversion IH as [| ? ? IHsub IHrest]; subst.
    inversion Hsubs as [| ? ? Hsub Hrest]; subst.
    inversion Hdirs as [| ? ? Hname Hnames]; subst.
    assert (Hrec : NoDup
                     (flat_map
                        (fun d =>
                           match d with
                           | (name0, islink0, sub0) =>
                               if islink0 : bool then []
                               else get_image_list (join path name0) sub0
                           end) dirs)).
    { apply IHdirs; try assumption.
      intros; apply (Hdok name0 islink0 sub0); now right. }
    destruct islink; [exact Hrec |].
    destruct (Hdok name false sub (or_introl eq_refl)) as [Nname Nsub].
    apply NoDup_app; [now apply IHsub | exact Hrec |].
    intros p Hp Hq. apply in_flat_map in Hq as ([[name' islink'] sub'] & Hd' & Hq).
    destruct islink'; [contradiction |].
    destruct (Hdok name' false sub' (or_intror Hd')) as [Nname' Nsub'].
    apply (@in_sub_list _ _ _ _ Nname Nsub) in Hp as [rest E].
    apply (@in_sub_list _ _ _ _ Nname' Nsub') in Hq as [rest' E'].
    rewrite E in E'. apply app_string_inv_head in E'.
    apply first_component in E';
      [| now apply name_ok_parts | now apply name_ok_parts].
    apply Hname. rewrite E'. unfold dirnames.
    apply (in_map (fun d : string * bool * tree => fst (fst d))) in Hd'.
    exact Hd'.
  - intros p Hp Hq.
    apply in_map_iff in Hp as (f & <- & Hf). apply filter_In in Hf as [Hf _].
    apply in_flat_map in Hq as ([[name islink] sub] & Hd & Hq).
    destruct islink; [contradiction |].
    destruct (@names_ok_sub _ _ _ _ _ Hok Hd) as [Nname Nsub].
    apply (@in_sub_list _ _ _ _ Nname Nsub) in Hq as [rest E].
    rewrite (@join_slash path f (Hfok _ Hf)) in E.
    apply app_string_inv_head in E.
    destruct (@name_ok_parts _ (Hfok _ Hf)) as [_ Hs].
    rewrite E, has_sep_app in Hs. simpl in Hs.
    rewrite orb_true_r in Hs. discriminate.
Qed.

End DistinctPaths.

Lemma orbit_tidy : Paths.tidy Samples.orbit.
Proof.
  unfold Samples.orbit.
  repeat first
         [ apply Paths.tidy_node
         | apply NoDup_nil
         | apply NoDup_cons
         | apply Forall_nil
         | apply Forall_cons
         | progress simpl
         | solve [intuition discriminate] ].
Qed.

Lemma get_image_list_NoDup_witness :
  NoDup (Discovery.get_image_list "videos/orbit" Samples.orbit).
Proof.
  apply get_image_list_NoDup; [reflexivity | exact orbit_tidy].
Defined.

(** ** Masking the two grids of a view (lines 88-94) *)

Section Masking.

Import Numpy Matching Pipeline.

Variable pixel : Type.

(** X15: masking keeps the pixels and the points of a view side by
    side: the two masked arrays have the same number of rows, and row [k]
    of the one and row [k] of the other come from one and the same
    position of the grids, a position that the confidence mask keeps. *)
Theorem masked_grids_stay_aligned (v : view pixel)
        (pts2d : list pixel) (pts3d_kept : list point3) :
  mask_select (xy_grid v) (conf v) = Ok pts2d ->
  mask_select (pts3d v) (conf v) = Ok pts3d_kept ->
  List.length pts2d = List.length pts3d_kept
  /\ forall k x p,
      nth_error pts2d k = Some x -> nth_error pts3d_kept k = Some p ->
      exists g,
        nth_error (xy_grid v) g = Some x
        /\ nth_error (pts3d v) g = Some p
        /\ nth_error (conf v) g = Some true.
Proof.
  intros G S.
  split; [eapply mask_select_same_length; eassumption |].
  apply mask_select_ok in G as [_ ->], S as [_ ->].
  intros k x p Hx Hp.
  assert (Hk : nth_error (compress (combine (xy_grid v) (pts3d v)) (conf v)) k
               = Some (x, p))
    by (rewrite compress_combine; now apply nth_error_combine).
  apply nth_error_In, compress_In in Hk as (g & Hg & Hm).
  apply nth_error_combine in Hg as [Hgx Hgp]. eauto.
Qed.

End Masking.

Lemma masked_grids_stay_aligned_witness :
  List.length [(0, 0); (1, 0)]%Z = List.length Samples.cloud0
  /\ forall k x p,
      nth_error [(0, 0); (1, 0)]%Z k = Some x ->
      nth_error Samples.cloud0 k = Some p ->
      exists g,
        nth_error (Matching.xy_grid Samples.seen0) g = Some x
        /\ nth_error (Matching.pts3d Samples.seen0) g = Some p
        /\ nth_error (Matching.conf Samples.seen0) g = Some true.
Proof.
  apply (@masked_grids_stay_aligned _ Samples.seen0); reflexivity.
Defined.
